(** * Dictation trigger: key gesture classifier, recorder and transcription client

    A shallow embedding of [main.go].  Each Go function is a Rocq function of
    the same name over an explicit state; the operating system, the audio
    stream, the network and the clock are inputs. *)

From Stdlib Require Import ZArith QArith Qround Bool List Ascii String Lia.
From Stdlib Require Import Floats.SpecFloat.
From stdpp Require Import gmap strings.
Import ListNotations.

Local Open Scope string_scope.
Local Open Scope Z_scope.

(** ** The part of Go's [time] package the classifier uses *)

Module GoTime.

(** A [time.Time]: the wall clock reading in nanoseconds since the zero
    instant (January 1, year 1, 00:00:00 UTC) and, when the value came from
    [time.Now()], the monotonic clock reading in nanoseconds. *)
Record Time := mkTime { wall : Z; mono : option Z }.

(** The zero value of [time.Time] (what [var t time.Time] holds): the zero
    instant, without a monotonic reading. *)
Definition zero : Time := mkTime 0 None.

(** A [time.Duration] is an int64 count of nanoseconds. *)
Definition minDuration : Z := - 2 ^ 63.
Definition maxDuration : Z := 2 ^ 63 - 1.
Definition Millisecond : Z := 1000000.

Definition saturate (d : Z) : Z :=
  if d <? minDuration then minDuration
  else if maxDuration <? d then maxDuration
  else d.

(** The difference [t - u] before it is fitted in a Duration: of the
    monotonic readings when both values carry one, of the wall clock
    readings otherwise. *)
Definition spacing (t u : Time) : Z :=
  match mono t, mono u with
  | Some a, Some b => a - b
  | _, _ => wall t - wall u
  end.

(** [t.Sub(u)]: the difference, or the largest (smallest) Duration when it
    does not fit. *)
Definition Sub (t u : Time) : Z := saturate (spacing t u).

End GoTime.

(** ** Key gesture classifier *)

Module Classifier.
Import GoTime.

(** [hook.Event]: the kinds the listener looks at, and the raw key code. *)
Inductive EventKind := KeyDown | KeyHold | KeyUp | OtherKind.

Record Event := mkEvent { Kind : EventKind; Rawcode : Z }.

Definition globeKeyCode : Z := 179.
Definition doublePressTime : Z := 500 * Millisecond.
Definition ctrlRawcode : Z := 59.
Definition cRawcode : Z := 8.

(** Which of the two handlers [handleKeyEvent] called. *)
Inductive Gesture := DoublePress | SinglePress.

(** The package variable [dictating], the locals of
    [listenForKeyboardEvents], and what the listener did to the outside:
    the goroutines it started with [go startTranscription(ctx)], the lines
    it printed, whether it called [cancel()], and whether it has returned.
    [gestures] is a ghost field: the handler calls, oldest first. *)
Record State := mkState {
  dictating : bool;
  lastGlobePressTime : Time;
  ctrlPressed : bool;
  sessions : nat;
  console : list string;
  cancelCalled : bool;
  listening : bool;
  gestures : list Gesture
}.

(** Process start: [dictating] and [lastGlobePressTime] hold Go's zero
    values, [ctrlPressed := false], and the listener has printed its
    banner. *)
Definition initial : State :=
  mkState false zero false 0
    ["Starting keyboard listener. Press Ctrl+C to exit."] false true [].

Definition println (s : string) (st : State) : State :=
  mkState (dictating st) (lastGlobePressTime st) (ctrlPressed st)
    (sessions st) (console st ++ [s]) (cancelCalled st) (listening st)
    (gestures st).

Definition set_dictating (b : bool) (st : State) : State :=
  mkState b (lastGlobePressTime st) (ctrlPressed st) (sessions st)
    (console st) (cancelCalled st) (listening st) (gestures st).

Definition set_lastGlobePressTime (t : Time) (st : State) : State :=
  mkState (dictating st) t (ctrlPressed st) (sessions st) (console st)
    (cancelCalled st) (listening st) (gestures st).

Definition set_ctrlPressed (b : bool) (st : State) : State :=
  mkState (dictating st) (lastGlobePressTime st) b (sessions st)
    (console st) (cancelCalled st) (listening st) (gestures st).

(** [go startTranscription(ctx)] *)
Definition go_startTranscription (st : State) : State :=
  mkState (dictating st) (lastGlobePressTime st) (ctrlPressed st)
    (S (sessions st)) (console st) (cancelCalled st) (listening st)
    (gestures st).

(** [cancel(); return] (also the return on [ctx.Done()], with
    [called := false]) *)
Definition stop_listening (called : bool) (st : State) : State :=
  mkState (dictating st) (lastGlobePressTime st) (ctrlPressed st)
    (sessions st) (console st) (cancelCalled st || called) false
    (gestures st).

Definition note (g : Gesture) (st : State) : State :=
  mkState (dictating st) (lastGlobePressTime st) (ctrlPressed st)
    (sessions st) (console st) (cancelCalled st) (listening st)
    (gestures st ++ [g]).

Definition handleDoublePress (st : State) : State :=
  let st := note DoublePress st in
  if negb (dictating st) then
    go_startTranscription
      (set_dictating true
         (println "Double press detected, starting transcription" st))
  else st.

Definition handleSinglePress (st : State) : State :=
  let st := note SinglePress st in
  if dictating st then
    set_dictating false
      (println "Single press detected, stopping transcription" st)
  else st.

(** [handleKeyEvent(ctx, ev, &lastGlobePressTime)]; [now] is what
    [time.Now()] returns. *)
Definition handleKeyEvent (ev : Event) (now : Time) (st : State) : State :=
  if negb (Rawcode ev =? globeKeyCode) then st
  else
    let st' :=
      if Sub now (lastGlobePressTime st) <? doublePressTime
      then handleDoublePress st
      else handleSinglePress st in
    set_lastGlobePressTime now st'.

(** What the [select] of the listener's loop receives. *)
Inductive Input :=
| CtxDone
| KeyEvent (ev : Event) (now : Time).

(** One iteration of the [for { select { ... } }] loop. *)
Definition listen_step (st : State) (i : Input) : State :=
  if negb (listening st) then st
  else
    match i with
    | CtxDone =>
        stop_listening false
          (println "Context cancelled, stopping keyboard listener" st)
    | KeyEvent ev now =>
        match Kind ev with
        | KeyHold | KeyDown =>
            if Rawcode ev =? ctrlRawcode then set_ctrlPressed true st
            else if (Rawcode ev =? cRawcode) && ctrlPressed st then
              stop_listening true (println "User pressed Ctrl+C" st)
            else handleKeyEvent ev now (set_ctrlPressed false st)
        | KeyUp =>
            if Rawcode ev =? ctrlRawcode then set_ctrlPressed false st
            else st
        | OtherKind => st
        end
    end.

Definition listenForKeyboardEvents (st : State) (inputs : list Input) : State :=
  fold_left listen_step inputs st.

(** A down or hold event of the trigger key. *)
Definition is_press (ev : Event) : bool :=
  match Kind ev with
  | KeyDown | KeyHold => Rawcode ev =? globeKeyCode
  | _ => false
  end.

Definition classify (now last : Time) : Gesture :=
  if Sub now last <? doublePressTime then DoublePress else SinglePress.

Definition handle (g : Gesture) (st : State) : State :=
  match g with
  | DoublePress => handleDoublePress st
  | SinglePress => handleSinglePress st
  end.

Definition input_is_press (i : Input) : bool :=
  match i with
  | KeyEvent ev _ => is_press ev
  | CtxDone => false
  end.

(** The times of the trigger presses among the inputs, in order. *)
Fixpoint press_times (inputs : list Input) : list Time :=
  match inputs with
  | [] => []
  | KeyEvent ev now :: rest =>
      if is_press ev then now :: press_times rest else press_times rest
  | CtxDone :: rest => press_times rest
  end.

(** Every press is at least the window after the one before it, the first
    one after [last]. *)
Fixpoint spaced (last : Time) (times : list Time) : Prop :=
  match times with
  | [] => True
  | t :: rest => doublePressTime <= spacing t last /\ spaced t rest
  end.

(** The fields the gestures act on. *)
Definition same_dictation (st st' : State) : Prop :=
  dictating st' = dictating st /\
  lastGlobePressTime st' = lastGlobePressTime st /\
  sessions st' = sessions st /\
  gestures st' = gestures st.

End Classifier.

(** ** Errors

    A Go [error] is kept as its message; [fmt.Errorf("ctx: %w", err)] puts
    the context in front.  A Go result pair [(string, error)] is a pair of a
    string and an optional error. *)

Definition Error := string.

Definition wrap (context : string) (err : Error) : Error :=
  (context ++ ": " ++ err)%string.

Definition GoResult := (string * option Error)%type.

Definition failed (e : Error) : GoResult := ("", Some e).
Definition returned (s : string) : GoResult := (s, None).

(** ** 32-bit floating point samples and their conversion *)

Module Float32.

Definition prec : Z := 24.
Definition emax : Z := 128.

(** A [float32] is an IEEE 754 binary32 value. *)
Definition float32 := spec_float.

Definition valid (x : float32) : bool := valid_binary prec emax x.

(** The float32 product, rounded to nearest even. *)
Definition mul (x y : float32) : float32 := SFmul prec emax x y.

(** An integer constant converted to float32. *)
Definition of_Z (z : Z) : float32 := binary_normalize prec emax z 0 false.

Definition minInt : Z := - 2 ^ 63.
Definition maxInt : Z := 2 ^ 63 - 1.

(** The value of a finite [x] with its fraction discarded. *)
Definition truncate (x : float32) : option Z :=
  match x with
  | S754_zero _ => Some 0
  | S754_finite s m e =>
      Some (cond_Zopp s
              (if 0 <=? e then Zpos m * 2 ^ e else Zpos m / 2 ^ (- e)))
  | S754_infinity _ | S754_nan => None
  end.

(** The conversion [int(x)] to Go's 64-bit [int]: the fraction is
    discarded.  When the result does not fit (or [x] is not finite) Go
    leaves the value to the implementation: [unrepresentable] is that
    choice. *)
Definition to_int (unrepresentable : float32 -> Z) (x : float32) : Z :=
  match truncate x with
  | Some z => if (minInt <=? z) && (z <=? maxInt) then z
              else unrepresentable x
  | None => unrepresentable x
  end.

(** The conversion [int16(v)] of an [int]: the low 16 bits, signed. *)
Definition int16 (v : Z) : Z := (v + 2 ^ 15) mod 2 ^ 16 - 2 ^ 15.

(** The exact value of a finite float, as a rational. *)
Definition to_Q (x : float32) : Q :=
  match x with
  | S754_finite s m e =>
      if 0 <=? e then inject_Z (cond_Zopp s (Zpos m * 2 ^ e))
      else Qmake (cond_Zopp s (Zpos m)) (Z.to_pos (2 ^ (- e)))
  | _ => 0%Q
  end.

(** [|x| <= 1], for the samples of a normalized signal. *)
Definition in_unit_range (x : float32) : bool :=
  match x with
  | S754_zero _ => true
  | S754_finite _ m e => (e <=? 0) && (Zpos m <=? 2 ^ (- e))
  | S754_infinity _ | S754_nan => false
  end.

(** A rational with its fraction discarded. *)
Definition toward_zero (q : Q) : Z := Z.quot (Qnum q) (Zpos (Qden q)).

(** The integer nearest to a rational, halves away from zero. *)
Definition round_nearest (q : Q) : Z :=
  if Qle_bool 0 q then Qfloor (q + (1 # 2)) else Qceiling (q - (1 # 2)).

(** [mrs] holds [m0] shifted right by [n] bits, with its round and sticky
    bits clear when no set bit was shifted out. *)
Definition shifted (m0 n : Z) (mrs : shr_record) : Prop :=
  shr_m mrs = m0 / 2 ^ n /\
  (m0 mod 2 ^ n = 0 -> shr_r mrs = false /\ shr_s mrs = false).

(** [|x| <= B], for an integer bound [B]. *)
Definition magnitude_le (B : Z) (x : float32) : Prop :=
  match x with
  | S754_zero _ => True
  | S754_finite _ m e => e <= 0 /\ Zpos m <= B * 2 ^ (- e)
  | S754_infinity _ | S754_nan => False
  end.

End Float32.

(** ** Files on disk *)

(** What the WAV encoder of [go-audio/wav] leaves in a file: the format
    fields of the header and the stored samples, each a signed 16-bit value
    when the bit depth is 16. *)
Record WavFile := mkWav {
  wavSampleRate : Z;
  wavBitDepth : Z;
  wavNumChans : Z;
  wavAudioFormat : Z;
  wavData : list Z
}.

(** ** The finalize step: [saveAudioToFile] *)

Module Audio.
Import Float32.

Definition sampleRate : Z := 44100.
Definition channels : Z := 1.

(** The answers of the operating system and of the encoder during one
    call: the formatted local time, [filepath.Abs], [os.Create] and
    [wavEncoder.Write]. *)
Record SaveEnv := mkSaveEnv {
  timestamp : string;
  Abs : string -> string + Error;
  create_err : option Error;
  write_err : option Error
}.

Section Conversion.
(** Go's implementation-specific result of converting a float32 that
    does not fit in an [int]. *)
Variable unrepresentable : float32 -> Z.

(** The loop [intBuffer[i] = int(sample * 32767)]. *)
Definition intBuffer (samples : list float32) : list Z :=
  List.map (fun sample => to_int unrepresentable (mul sample (of_Z 32767)))
    samples.

(** [wavEncoder.Write] at bit depth 16 stores [int16(v)] for each
    value of the buffer. *)
Definition encode (data : list Z) : WavFile :=
  mkWav sampleRate 16 channels 1 (List.map int16 data).

Definition fileName (env : SaveEnv) : string :=
  ("recorded_audio_" ++ timestamp env ++ ".wav")%string.

Definition saveAudioToFile (env : SaveEnv) (samples : list float32)
    (fs : gmap string WavFile) : GoResult * gmap string WavFile :=
  match Abs env (fileName env) with
  | inr err => (failed (wrap "getting absolute path" err), fs)
  | inl fullPath =>
      match create_err env with
      | Some err => (failed (wrap "creating audio file" err), fs)
      | None =>
          match write_err env with
          | Some err =>
              (failed (wrap "encoding WAV" err),
               <[fullPath := encode []]> fs)
          | None =>
              (returned fullPath,
               <[fullPath := encode (intBuffer samples)]> fs)
          end
      end
  end.

End Conversion.

(** The stored sample in the words of the specification: the exact
    product [sample * 32767], rounded to the nearest integer. *)
Definition rounded_sample (sample : float32) : Z :=
  round_nearest (to_Q sample * inject_Z 32767).

(** The stored sample as the code computes it: the float32 product
    with its fraction discarded. *)
Definition truncated_product (sample : float32) : Z :=
  toward_zero (to_Q (mul sample (of_Z 32767))).

End Audio.

(** ** One recording attempt: [recordAudio]

    [recordAudio] runs two threads of control, its own body and the goroutine
    with the recording loop, next to the lifecycle signal and the listener.
    The model is an interleaving of atomic steps: each action below is taken
    by one of them, and a thread scheduled while it is blocked (or after it
    has ended) leaves the state as it is.  One attempt is modelled, with both
    gestures of the listener acting on the flag while it runs; the attempts
    that a double press starts meanwhile are counted, not run: the stream,
    the lines and the files of the state are those of this attempt (and the
    lines of the two handlers), as this attempt leaves them.  Inside
    [saveAudioToFile] the creation of the file and the writing of the samples
    are separate steps. *)

Module Recorder.
Import Float32 Audio.

(** Calls made on the portaudio stream, oldest first. *)
Inductive StreamCall := SOpen | SStart | SRead | SStop | SClose.

(** Where the body of [recordAudio] stands. *)
Inductive MainPC :=
| MOpen                       (* before portaudio.OpenDefaultStream *)
| MStart                      (* before stream.Start() *)
| MWait                       (* at the select on ctx.Done() / recordingDone *)
| MClear                      (* before dictating = false *)
| MStop                       (* before stream.Stop() *)
| MSave                       (* before saveAudioToFile(allSamples) *)
| MWrite (fullPath : string) (samples : list float32)
                              (* in saveAudioToFile, after os.Create *)
| MReturned (r : GoResult).

(** Where the recording goroutine stands. *)
Inductive LoopPC :=
| LNotStarted
| LCheck                      (* at the loop condition [for dictating] *)
| LSelect                     (* at the select on ctx.Done() / default *)
| LRead                       (* before stream.Read() *)
| LExited                     (* returned from inside the loop *)
| LFinished.                  (* left the loop and closed recordingDone *)

(** The branch a [select] of the body takes. *)
Inductive Branch := OnCtxDone | OnRecordingDone.

Inductive Action :=
| Cancel                      (* the lifecycle signal fires *)
| SinglePress                 (* the listener runs handleSinglePress *)
| DoublePress                 (* the listener runs handleDoublePress *)
| Main (b : Branch)           (* the body takes its next step *)
| Loop.                       (* the goroutine takes its next step *)

(** The answers of the audio subsystem and of the finalize step during one
    attempt; [reads k] is what the [k]-th call of [stream.Read()] gives:
    an error, or the block it left in [buffer]. *)
Record Env := mkEnv {
  open_err : option Error;
  start_err : option Error;
  reads : nat -> Error + list float32;
  stop_err : option Error;
  save : SaveEnv
}.

(** [spawned] counts the [go startTranscription(ctx)] of the double presses
    handled while the attempt runs. *)
Record State := mkState {
  dictating : bool;
  cancelled : bool;
  recordingDone : bool;
  allSamples : list float32;
  readCount : nat;
  stream : list StreamCall;
  console : list string;
  fs : gmap string WavFile;
  mainPC : MainPC;
  loopPC : LoopPC;
  spawned : nat
}.

(** The state in which [startTranscription] calls [recordAudio]:
    [handleDoublePress] has just set the flag. *)
Definition start (fs0 : gmap string WavFile) : State :=
  mkState true false false [] 0 [] [] fs0 MOpen LNotStarted 0.

Definition set_dictating (b : bool) (st : State) : State :=
  mkState b (cancelled st) (recordingDone st) (allSamples st)
    (readCount st) (stream st) (console st) (fs st) (mainPC st) (loopPC st)
    (spawned st).

Definition set_cancelled (st : State) : State :=
  mkState (dictating st) true (recordingDone st) (allSamples st)
    (readCount st) (stream st) (console st) (fs st) (mainPC st) (loopPC st)
    (spawned st).

Definition close_recordingDone (st : State) : State :=
  mkState (dictating st) (cancelled st) true (allSamples st)
    (readCount st) (stream st) (console st) (fs st) (mainPC st) (loopPC st)
    (spawned st).

Definition append_block (block : list float32) (st : State) : State :=
  mkState (dictating st) (cancelled st) (recordingDone st)
    (allSamples st ++ block) (readCount st) (stream st) (console st)
    (fs st) (mainPC st) (loopPC st) (spawned st).

Definition call (c : StreamCall) (st : State) : State :=
  mkState (dictating st) (cancelled st) (recordingDone st) (allSamples st)
    (match c with SRead => S (readCount st) | _ => readCount st end)
    (stream st ++ [c]) (console st) (fs st) (mainPC st) (loopPC st)
    (spawned st).

Definition print (s : string) (st : State) : State :=
  mkState (dictating st) (cancelled st) (recordingDone st) (allSamples st)
    (readCount st) (stream st) (console st ++ [s]) (fs st) (mainPC st)
    (loopPC st) (spawned st).

Definition set_fs (fs' : gmap string WavFile) (st : State) : State :=
  mkState (dictating st) (cancelled st) (recordingDone st) (allSamples st)
    (readCount st) (stream st) (console st) fs' (mainPC st) (loopPC st)
    (spawned st).

Definition main_goto (pc : MainPC) (st : State) : State :=
  mkState (dictating st) (cancelled st) (recordingDone st) (allSamples st)
    (readCount st) (stream st) (console st) (fs st) pc (loopPC st)
    (spawned st).

Definition loop_goto (pc : LoopPC) (st : State) : State :=
  mkState (dictating st) (cancelled st) (recordingDone st) (allSamples st)
    (readCount st) (stream st) (console st) (fs st) (mainPC st) pc
    (spawned st).

(** [go startTranscription(ctx)] *)
Definition go_startTranscription (st : State) : State :=
  mkState (dictating st) (cancelled st) (recordingDone st) (allSamples st)
    (readCount st) (stream st) (console st) (fs st) (mainPC st) (loopPC st)
    (S (spawned st)).

Section Steps.
Variable unrepresentable : float32 -> Z.
Variable env : Env.

(** The next step of the body of [recordAudio].  The call
    [saveAudioToFile(allSamples)] takes two steps: the first passes the
    samples collected so far and runs up to [os.Create], which leaves an
    empty file; the second converts and writes the samples passed, and
    returns, with the deferred [stream.Close()]. *)
Definition main_step (b : Branch) (st : State) : State :=
  match mainPC st with
  | MOpen =>
      match open_err env with
      | Some err =>
          main_goto (MReturned (failed (wrap "opening audio stream" err))) st
      | None => main_goto MStart (call SOpen st)
      end
  | MStart =>
      match start_err env with
      | Some err =>
          main_goto (MReturned (failed (wrap "starting audio stream" err)))
            (call SClose (call SStart st))
      | None =>
          main_goto MWait
            (loop_goto LCheck
               (print "Recording... Press the dictation key again to stop."
                  (call SStart st)))
      end
  | MWait =>
      match b with
      | OnCtxDone =>
          if cancelled st then
            main_goto MClear (print "Context cancelled, recording stopped" st)
          else st
      | OnRecordingDone =>
          if recordingDone st then
            main_goto MClear (print "Recording finished" st)
          else st
      end
  | MClear => main_goto MStop (set_dictating false st)
  | MStop =>
      match stop_err env with
      | Some err =>
          main_goto (MReturned (failed (wrap "stopping audio stream" err)))
            (call SClose (call SStop st))
      | None => main_goto MSave (call SStop st)
      end
  | MSave =>
      match Abs (save env) (fileName (save env)) with
      | inr err =>
          main_goto (MReturned (failed (wrap "getting absolute path" err)))
            (call SClose st)
      | inl fullPath =>
          match create_err (save env) with
          | Some err =>
              main_goto (MReturned (failed (wrap "creating audio file" err)))
                (call SClose st)
          | None =>
              main_goto (MWrite fullPath (allSamples st))
                (set_fs (<[fullPath := encode []]> (fs st)) st)
          end
      end
  | MWrite fullPath samples =>
      match write_err (save env) with
      | Some err =>
          main_goto (MReturned (failed (wrap "encoding WAV" err)))
            (call SClose st)
      | None =>
          main_goto (MReturned (returned fullPath))
            (call SClose
               (set_fs (<[fullPath :=
                            encode (intBuffer unrepresentable samples)]>
                          (fs st)) st))
      end
  | MReturned _ => st
  end.

(** The next step of the recording goroutine. *)
Definition loop_step (st : State) : State :=
  match loopPC st with
  | LNotStarted => st
  | LCheck =>
      if dictating st then loop_goto LSelect st
      else loop_goto LFinished
             (close_recordingDone (print "stopping recording" st))
  | LSelect =>
      if cancelled st then
        loop_goto LExited (print "Context cancelled, stopping recording" st)
      else loop_goto LRead (print "." st)
  | LRead =>
      match reads env (readCount st) with
      | inl err =>
          loop_goto LExited
            (print ("Error reading from stream: " ++ err) (call SRead st))
      | inr block =>
          loop_goto LCheck (append_block block (call SRead st))
      end
  | LExited | LFinished => st
  end.

Definition step (st : State) (a : Action) : State :=
  match a with
  | Cancel => set_cancelled st
  | SinglePress =>
      if dictating st then
        set_dictating false
          (print "Single press detected, stopping transcription" st)
      else st
  | DoublePress =>
      if negb (dictating st) then
        go_startTranscription
          (set_dictating true
             (print "Double press detected, starting transcription" st))
      else st
  | Main b => main_step b st
  | Loop => loop_step st
  end.

Definition run (st : State) (schedule : list Action) : State :=
  fold_left step schedule st.

(** The recording goroutine has ended. *)
Definition loop_ended (st : State) : bool :=
  match loopPC st with LExited | LFinished => true | _ => false end.

Definition has_returned (st : State) : bool :=
  match mainPC st with MReturned _ => true | _ => false end.

End Steps.

Definition is_cancel (a : Action) : bool :=
  match a with Cancel => true | _ => false end.

Definition is_double (a : Action) : bool :=
  match a with DoublePress => true | _ => false end.

(** The two failures that end [recordAudio] before the stream runs. *)
Definition stream_not_running (r : GoResult) : Prop :=
  exists err : Error,
    r = failed (wrap "opening audio stream" err) \/
    r = failed (wrap "starting audio stream" err).

(** What holds of the flag at each point of the body, as long as no double
    press is handled. *)
Definition flag_cleared (st : State) : Prop :=
  match mainPC st with
  | MStop | MSave | MWrite _ _ => dictating st = false
  | MReturned r => dictating st = false \/ stream_not_running r
  | MOpen | MStart | MWait | MClear => True
  end.

(** The body waits at its select, the goroutine has returned without
    closing [recordingDone], and the lifecycle signal has not fired. *)
Definition stuck (st : State) : Prop :=
  mainPC st = MWait /\ loopPC st = LExited /\
  recordingDone st = false /\ cancelled st = false.

(** The value a 16-bit file holds for one sample: [int(sample * 32767)] as
    the encoder stores it. *)
Definition sample16 (unrepresentable : float32 -> Z) (sample : float32) : Z :=
  int16 (to_int unrepresentable (mul sample (of_Z 32767))).

(** The file that holds [samples], one value each and in their order:
    44100 Hz, 16 bits, one channel, PCM.  It is what a recording is
    expected to be, written down apart from [intBuffer] and [encode], the
    code that produces the file. *)
Definition recording (unrepresentable : float32 -> Z)
    (samples : list float32) : WavFile :=
  mkWav 44100 16 1 1 (List.map (sample16 unrepresentable) samples).

Section Finalizing.
Variable unrepresentable : float32 -> Z.
Variable fullPath : string.
Variable captured : list float32.

(** After the signal has fired on a waiting body: the samples captured
    before are kept, the stream is stopped before the file is created,
    the samples passed to the finalize step begin with those captured, and
    the file holds them once the body has returned. *)
Definition finalizing (st : State) : Prop :=
  cancelled st = true /\
  (exists more : list float32, allSamples st = (captured ++ more)%list) /\
  match mainPC st with
  | MWait | MClear | MStop => True
  | MSave => In SStop (stream st)
  | MWrite path samples =>
      path = fullPath /\ In SStop (stream st) /\
      exists more : list float32, samples = (captured ++ more)%list
  | MReturned r =>
      r = returned fullPath /\ In SStop (stream st) /\
      exists more : list float32,
        fs st !! fullPath =
        Some (recording unrepresentable (captured ++ more)%list)
  | MOpen | MStart => False
  end.
End Finalizing.

End Recorder.

(** ** JSON decoding into [struct { Text string `json:"text"` }] *)

Module Json.

#[local] Unset Elimination Schemes.

Inductive Value :=
| JNull
| JBool (b : bool)
| JNumber (literal : string)
| JString (s : string)
| JArray (items : list Value)
| JObject (members : list (string * Value)).

#[local] Set Elimination Schemes.

Definition lower (c : ascii) : ascii :=
  let n := nat_of_ascii c in
  if (Nat.leb 65 n && Nat.leb n 90)%bool then ascii_of_nat (n + 32) else c.

Fixpoint lowercase (s : string) : string :=
  match s with
  | EmptyString => EmptyString
  | String c s' => String (lower c) (lowercase s')
  end.

(** [encoding/json] matches an object key to a struct field by its name,
    ignoring the case of letters. *)
Definition names_field (key : string) : bool :=
  String.eqb (lowercase key) "text".

(** The double quote and the backslash, for the texts below. *)
Definition quote : string := String (ascii_of_nat 34) EmptyString.
Definition backslash : string := String (ascii_of_nat 92) EmptyString.

(** How [encoding/json] names a value in a type error. *)
Definition kind (v : Value) : string :=
  match v with
  | JNull => "null"
  | JBool _ => "bool"
  | JNumber _ => "number"
  | JString _ => "string"
  | JArray _ => "array"
  | JObject _ => "object"
  end.

(** The name [reflect] gives the type of [result]: the struct with its one
    field and the field's tag, the tag quoted with its inner quotes
    escaped. *)
Definition result_type : string :=
  "struct { Text string " ++ quote ++ "json:" ++ backslash ++ quote ++ "text"
  ++ backslash ++ quote ++ quote ++ " }".

(** The text of [UnmarshalTypeError]: for a value that cannot become the
    struct, and for a value that cannot become its field. *)
Definition value_mismatch (v : Value) : Error :=
  "json: cannot unmarshal " ++ kind v ++ " into Go value of type "
  ++ result_type.

Definition field_mismatch (v : Value) : Error :=
  "json: cannot unmarshal " ++ kind v
  ++ " into Go struct field .text of type string".

(** One member of the object: a string stored under the field's name
    sets [Text], a null leaves it, any other value is a type error (the
    first one is kept and decoding goes on); other members are skipped. *)
Definition decode_member (acc : GoResult) (member : string * Value) : GoResult :=
  if names_field (fst member) then
    match snd member with
    | JString s => (s, snd acc)
    | JNull => acc
    | v =>
        (fst acc,
         match snd acc with
         | Some err => Some err
         | None => Some (field_mismatch v)
         end)
    end
  else acc.

(** [json.NewDecoder(body).Decode(&result)] followed by reading
    [result.Text].  The body is given as the decoder finds it: its first
    JSON value (what follows the value is not read), or, for a body that
    does not begin with one (empty or malformed), the error the decoder
    reports. *)
Definition Decode (body : Value + Error) : GoResult :=
  match body with
  | inr err => failed err
  | inl JNull => returned ""
  | inl (JObject members) => fold_left decode_member members (returned "")
  | inl v => failed (value_mismatch v)
  end.

Definition lacks_text (members : list (string * Value)) : bool :=
  forallb (fun member => negb (names_field (fst member))) members.

End Json.

(** ** Transcription client and session *)

Module Session.

Definition openAIModel : string := "whisper-1".

Record Response := mkResponse { StatusCode : Z; Body : Json.Value + Error }.

(** The answers of the operating system, the multipart writer and the
    HTTP client during one call of [transcribeAudio]. *)
Record Env := mkEnv {
  open_err : option Error;
  createFormFile_err : option Error;
  copy_err : option Error;
  writeField_err : option Error;
  close_err : option Error;
  newRequest_err : option Error;
  do_result : Response + Error;
  remove_err : option Error
}.

(** Files on disk, lines printed, and the strings handed to
    [robotgo.TypeStr]. *)
Record World := mkWorld {
  fs : gmap string WavFile;
  console : list string;
  typed : list string
}.

Definition print (s : string) (w : World) : World :=
  mkWorld (fs w) (console w ++ [s]) (typed w).

Definition TypeStr (s : string) (w : World) : World :=
  mkWorld (fs w) (console w) (typed w ++ [s]).

(** [os.Open]: fails when the file is not there, or when the system
    refuses. *)
Definition os_Open (env : Env) (path : string) (w : World) : option Error :=
  match fs w !! path with
  | None => Some ("open " ++ path ++ ": no such file or directory")%string
  | Some _ => open_err env
  end.

(** [os.Remove]: on success the file is gone. *)
Definition os_Remove (env : Env) (path : string) (w : World)
    : option Error * World :=
  match remove_err env with
  | Some err => (Some err, w)
  | None => (None, mkWorld (delete path (fs w)) (console w) (typed w))
  end.

Definition transcribeAudio (env : Env) (audioFilePath : string) (w : World)
    : GoResult * World :=
  match os_Open env audioFilePath w with
  | Some err => (failed (wrap "opening audio file" err), w)
  | None =>
  match createFormFile_err env with
  | Some err => (failed (wrap "creating form file" err), w)
  | None =>
  match copy_err env with
  | Some err => (failed (wrap "copying file to form" err), w)
  | None =>
  match writeField_err env with
  | Some err => (failed (wrap "writing model field" err), w)
  | None =>
  match close_err env with
  | Some err => (failed (wrap "closing multipart writer" err), w)
  | None =>
  match newRequest_err env with
  | Some err => (failed (wrap "creating request" err), w)
  | None =>
  match do_result env with
  | inr err => (failed (wrap "sending request" err), w)
  | inl resp =>
  match Json.Decode (Body resp) with
  | (_, Some err) => (failed (wrap "decoding response" err), w)
  | (text, None) =>
      let '(rm, w1) := os_Remove env audioFilePath w in
      let w2 :=
        match rm with
        | Some err =>
            print ("Warning: failed to remove temporary audio file: " ++ err) w1
        | None => w1
        end in
      (returned text, w2)
  end end end end end end end end.

(** [startTranscription] from the return of [recordAudio] on;
    [recorded] is what [recordAudio] returned. *)
Definition startTranscription (env : Env) (recorded : GoResult) (w : World)
    : World :=
  match recorded with
  | (_, Some err) => print ("Error saving audio file: " ++ err) w
  | (audioFilePath, None) =>
      match transcribeAudio env audioFilePath w with
      | ((_, Some err), w1) => print ("Error transcribing: " ++ err) w1
      | ((transcription, None), w1) =>
          TypeStr transcription (print ("You said: " ++ transcription) w1)
      end
  end.

(** The request went out and [resp] came back: every step of
    [transcribeAudio] up to and including [client.Do] succeeded. *)
Definition answered (env : Env) (path : string) (w : World) (resp : Response)
    : Prop :=
  os_Open env path w = None /\
  createFormFile_err env = None /\ copy_err env = None /\
  writeField_err env = None /\ close_err env = None /\
  newRequest_err env = None /\
  do_result env = inl resp.

End Session.

(** ** Process start: [main] *)

Module Startup.

(** What the process has written and, once it has ended, its exit
    status. *)
Record Process := mkProcess {
  stdout : list string;
  stderr : list string;
  exitStatus : option Z;
  openAIKey : string
}.

(** [os.Getenv]: the value, or the empty string when the variable is not
    set. *)
Definition Getenv (environ : gmap string string) (key : string) : string :=
  default "" (environ !! key).

(** The outcome of [run()]: the lines it printed and its error. *)
Record RunResult := mkRun { run_stdout : list string; run_err : option Error }.

Definition main (environ : gmap string string) (run : RunResult) : Process :=
  let envKey := Getenv environ "OPENAI_API_KEY" in
  if negb (String.eqb envKey "") then
    match run_err run with
    | Some err =>
        mkProcess (run_stdout run) ["Error: " ++ err] (Some 1) envKey
    | None => mkProcess (run_stdout run) [] (Some 0) envKey
    end
  else
    mkProcess ["Error: OPENAI_API_KEY environment variable not set."] []
      (Some 1) "".

End Startup.

(** ** Further notions for the listener *)

Module Listener.
Import GoTime Classifier.

(** A key went down, or is held down. *)
Definition is_down (k : EventKind) : bool :=
  match k with
  | KeyDown | KeyHold => true
  | KeyUp | OtherKind => false
  end.

(** Inputs on which the loop body takes no branch that assigns: the release
    of a key other than Ctrl, and events that are no key events. *)
Definition is_ignored (i : Input) : bool :=
  match i with
  | CtxDone => false
  | KeyEvent ev _ =>
      match Kind ev with
      | KeyUp => negb (Rawcode ev =? ctrlRawcode)
      | OtherKind => true
      | KeyDown | KeyHold => false
      end
  end.

(** Inputs after which Ctrl no longer counts as held: the release of Ctrl,
    and any key going down other than Ctrl itself and other than the C that
    completes the chord. *)
Definition breaks_chord (st : State) (i : Input) : bool :=
  match i with
  | CtxDone => false
  | KeyEvent ev _ =>
      match Kind ev with
      | KeyUp => Rawcode ev =? ctrlRawcode
      | KeyDown | KeyHold =>
          negb (Rawcode ev =? ctrlRawcode) &&
          negb ((Rawcode ev =? cRawcode) && ctrlPressed st)
      | OtherKind => false
      end
  end.

(** The calls of [handleSinglePress] among the handler calls. *)
Fixpoint single_presses (gs : list Gesture) : nat :=
  match gs with
  | [] => 0%nat
  | SinglePress :: rest => S (single_presses rest)
  | DoublePress :: rest => single_presses rest
  end.

(** One when the flag is idle, zero when it is recording. *)
Definition idle (st : State) : nat := if dictating st then 0%nat else 1%nat.

End Listener.

(** ** Further notions for a recording attempt *)

Module Protocol.
Import Float32 Audio Recorder.

(** What the first [n] calls of [stream.Read()] delivered, in order; a
    failed read delivers nothing. *)
Definition blocks_read (env : Env) (n : nat) : list float32 :=
  flat_map (fun k => match reads env k with
                     | inr block => block
                     | inl _ => []
                     end)
    (seq 0 n).

(** The stream calls of an attempt whose stream runs: opened, started, and
    read once per block so far. *)
Definition running_calls (st : State) : list StreamCall :=
  ([SOpen; SStart] ++ repeat SRead (readCount st))%list.

(** [recordAudio] returned one of its three stream errors. *)
Definition stream_failed (r : GoResult) : Prop :=
  exists err : Error,
    r = failed (wrap "opening audio stream" err) \/
    r = failed (wrap "starting audio stream" err) \/
    r = failed (wrap "stopping audio stream" err).

Section Attempt.
Variable unrepresentable : float32 -> Z.
Variable env : Env.
Variable fs0 : gmap string WavFile.

(** An attempt on which the lifecycle signal has not fired: where the body
    stands fixes the calls made on the stream so far and the files, and the
    body is past its select only when the goroutine has left its loop. *)
Definition orderly (st : State) : Prop :=
  cancelled st = false /\
  match mainPC st with
  | MOpen =>
      stream st = [] /\ loopPC st = LNotStarted /\ readCount st = 0%nat /\
      recordingDone st = false /\ fs st = fs0
  | MStart =>
      stream st = [SOpen] /\ loopPC st = LNotStarted /\
      readCount st = 0%nat /\ recordingDone st = false /\ fs st = fs0
  | MWait =>
      stream st = running_calls st /\ loopPC st <> LNotStarted /\
      (recordingDone st = true -> loopPC st = LFinished) /\ fs st = fs0
  | MClear | MStop =>
      stream st = running_calls st /\ loopPC st = LFinished /\ fs st = fs0
  | MSave =>
      stream st = (running_calls st ++ [SStop])%list /\
      loopPC st = LFinished /\ fs st = fs0
  | MWrite fullPath samples =>
      stream st = (running_calls st ++ [SStop])%list /\
      loopPC st = LFinished /\ samples = allSamples st /\
      Abs (save env) (fileName (save env)) = inl fullPath /\
      create_err (save env) = None /\
      fs st = <[fullPath := encode []]> fs0
  | MReturned r =>
      (loopPC st = LNotStarted \/ loopPC st = LFinished) /\
      (snd r = None ->
       stream st = (running_calls st ++ [SStop; SClose])%list /\
       loopPC st = LFinished /\
       (r, fs st) =
       saveAudioToFile unrepresentable (save env) (allSamples st) fs0)
  end.

(** The body has not yet reached [os.Create]. *)
Definition before_create (st : State) : bool :=
  match mainPC st with
  | MWrite _ _ | MReturned _ => false
  | _ => true
  end.

(** No file is touched before [os.Create]; from then on the files are those
    of the finalize step, as far as it has come. *)
Definition files_kept (st : State) : Prop :=
  match mainPC st with
  | MWrite fullPath _ =>
      Abs (save env) (fileName (save env)) = inl fullPath /\
      create_err (save env) = None /\
      fs st = <[fullPath := encode []]> fs0
  | MReturned r =>
      (stream_failed r /\ fs st = fs0) \/
      exists samples : list float32,
        (r, fs st) = saveAudioToFile unrepresentable (save env) samples fs0
  | _ => fs st = fs0
  end.

(** The samples are the blocks read, in order, and the goroutine is the one
    that reads. *)
Definition in_read_order (st : State) : Prop :=
  allSamples st = blocks_read env (readCount st) /\
  (loopPC st = LNotStarted -> readCount st = 0%nat).

End Attempt.

End Protocol.

(** ** The lifecycle: [run]

    [run] is modelled from the call of [portaudio.Initialize] to the end of
    the process, as an interleaving of the listener, the goroutine that waits
    for the end of the context, and the operating system's signal.  The
    goroutine is not joined: it may print its line before or after [run]
    prints its last one.  The listener's console stands for the standard
    output of the process, as far as [run], the goroutine and the listener
    write it; the lines of the dictation sessions are not part of it. *)

Module Lifecycle.
Import GoTime Classifier.

Inductive Action :=
| Signal                         (* SIGINT or SIGTERM is delivered *)
| Watcher                        (* the goroutine at <-ctx.Done() goes on *)
| Key (ev : Event) (now : Time)  (* the listener's select receives a key event *)
| Done                           (* the listener's select receives from ctx.Done() *)
| Finish.                        (* run's statements after the listener *)

(** The listener, whether the context is done, whether the waiting
    goroutine has printed its line, whether the deferred
    [portaudio.Terminate()] has run, and what [run] returned. *)
Record State := mkLife {
  listener : Classifier.State;
  ctxDone : bool;
  announced : bool;
  terminated : bool;
  result : option (option Error)
}.

(** A listener that was never started: nothing printed. *)
Definition not_started : Classifier.State :=
  Classifier.mkState false zero false 0 [] false false [].

(** [run] up to the call of the listener: it returns at once when
    [portaudio.Initialize] fails. *)
Definition boot (init_err : option Error) : State :=
  match init_err with
  | Some err =>
      mkLife not_started false false false
        (Some (Some (wrap "initializing portaudio" err)))
  | None => mkLife initial false false false None
  end.

(** One step.  After a failed [portaudio.Initialize] there is no context,
    no goroutine and no listener.  Otherwise the signal, the goroutine and
    the listener act as scheduled, also after [run] has returned; the
    statements of [run] after the listener are run once. *)
Definition step (st : State) (a : Action) : State :=
  match result st with
  | Some (Some _) => st
  | _ =>
      match a with
      | Signal =>
          mkLife (listener st) true (announced st) (terminated st) (result st)
      | Watcher =>
          if ctxDone st && negb (announced st) then
            mkLife (println "Received interrupt signal." (listener st))
              true true (terminated st) (result st)
          else st
      | Key ev now =>
          let l := listen_step (listener st) (KeyEvent ev now) in
          mkLife l (ctxDone st || cancelCalled l) (announced st)
            (terminated st) (result st)
      | Done =>
          if ctxDone st then
            mkLife (listen_step (listener st) CtxDone) true (announced st)
              (terminated st) (result st)
          else st
      | Finish =>
          if listening (listener st) then st
          else
            match result st with
            | Some _ => st
            | None =>
                mkLife (println "Shutting down now..." (listener st)) true
                  (announced st) true (Some None)
            end
      end
  end.

Definition run (st : State) (schedule : list Action) : State :=
  fold_left step schedule st.

(** What [main] gets back from [run()], once it has returned. *)
Definition outcome (st : State) : option Startup.RunResult :=
  match result st with
  | Some err => Some (Startup.mkRun (console (listener st)) err)
  | None => None
  end.

(** The process from [main] on: [run()] is called only with the API key
    set; [None] while [run()] has not returned. *)
Definition process (environ : gmap string string) (init_err : option Error)
    (schedule : list Action) : option Startup.Process :=
  if String.eqb (Startup.Getenv environ "OPENAI_API_KEY") "" then
    Some (Startup.main environ (Startup.mkRun [] None))
  else
    Startup.main environ <$> outcome (run (boot init_err) schedule).

(** The shutdown line is the last line, or the line of the waiting
    goroutine is the only one after it. *)
Definition shut_down (st : State) : Prop :=
  exists before : list string,
    console (listener st) = (before ++ ["Shutting down now..."])%list \/
    (console (listener st) =
       (before ++ ["Shutting down now..."; "Received interrupt signal."])%list /\
     announced st = true).

(** What holds of a lifecycle in every state. *)
Definition sound (st : State) : Prop :=
  (listening (listener st) = false -> ctxDone st = true) /\
  (announced st = true -> ctxDone st = true) /\
  (cancelCalled (listener st) = true ->
   listening (listener st) = false /\ ctxDone st = true) /\
  (forall r : option Error,
      result st = Some r ->
      r = None /\ listening (listener st) = false /\ terminated st = true /\
      shut_down st).

Definition is_watcher (a : Action) : bool :=
  match a with Watcher => true | _ => false end.

(** The steps of a schedule other than those of the waiting goroutine. *)
Definition others (schedule : list Action) : list Action :=
  List.filter (fun a => negb (is_watcher a)) schedule.

(** The lines of [run] and of the listener: all but the line of the waiting
    goroutine. *)
Definition own_lines (lines : list string) : list string :=
  List.filter (fun s => negb (String.eqb s "Received interrupt signal.")) lines.

Definition set_console (lines : list string) (l : Classifier.State)
    : Classifier.State :=
  Classifier.mkState (dictating l) (lastGlobePressTime l) (ctrlPressed l)
    (sessions l) lines (cancelCalled l) (listening l) (gestures l).

(** The state with the waiting goroutine's line and its mark taken out. *)
Definition without_watcher (st : State) : State :=
  mkLife (set_console (own_lines (console (listener st))) (listener st))
    (ctxDone st) false (terminated st) (result st).

End Lifecycle.

(** ** Concrete inputs for the examples *)

Module Inputs.
Import Float32.

(** The sample 0.25 *)
Definition quarter : float32 := S754_finite false 8388608 (-25).

(** The sample -1.0 *)
Definition minus_one : float32 := S754_finite true 8388608 (-23).

(** A system that answers every call of the finalize step with success:
    the working directory is [/tmp]. *)
Definition save_ok : Audio.SaveEnv :=
  Audio.mkSaveEnv "20240101_120000"
    (fun name => inl ("/tmp/" ++ name)%string) None None.

Definition saved_path : string := "/tmp/recorded_audio_20240101_120000.wav".

(** An implementation that converts what does not fit to the smallest
    [int]. *)
Definition unrepresentable (x : float32) : Z := minInt.

Definition block : list float32 := [quarter; minus_one].

(** No audio device: [portaudio.OpenDefaultStream] fails. *)
Definition no_device : Recorder.Env :=
  Recorder.mkEnv (Some "Device unavailable") None
    (fun _ => inr block) None save_ok.

(** A device whose first [stream.Read()] fails. *)
Definition read_fails : Recorder.Env :=
  Recorder.mkEnv None None (fun _ => inl "Input overflowed") None save_ok.

(** A device that delivers [block] at every read. *)
Definition device_ok : Recorder.Env :=
  Recorder.mkEnv None None (fun _ => inr block) None save_ok.

(** A server that answers every upload with [resp]; the file can be
    removed unless [rm] says otherwise. *)
Definition server (resp : Session.Response) (rm : option Error) : Session.Env :=
  Session.mkEnv None None None None None None (inl resp) rm.

(** The error object of a 401 answer: valid JSON without a text field. *)
Definition unauthorized : Session.Response :=
  Session.mkResponse 401
    (inl (Json.JObject
            [("error",
              Json.JObject [("message", Json.JString "Incorrect API key");
                            ("code", Json.JNull)])])).

Definition transcript : Session.Response :=
  Session.mkResponse 200 (inl (Json.JObject [("text", Json.JString "hello")])).

(** A disk holding one recording. *)
Definition one_recording : Session.World :=
  Session.mkWorld {[ saved_path := Audio.encode [8191] ]} [] [].

(** Key events: the trigger key pressed and held, another key, the Ctrl
    key. *)
Definition press : Classifier.Event :=
  Classifier.mkEvent Classifier.KeyDown 179.
Definition hold : Classifier.Event :=
  Classifier.mkEvent Classifier.KeyHold 179.
Definition other_key : Classifier.Event :=
  Classifier.mkEvent Classifier.KeyDown 42.
Definition ctrl_down : Classifier.Event :=
  Classifier.mkEvent Classifier.KeyDown 59.

(** What [time.Now()] returns [ms] milliseconds after process start, for
    a process started in the year 2026. *)
Definition at_ms (ms : Z) : GoTime.Time :=
  GoTime.mkTime ((63900000000 * 1000 + ms) * 1000000) (Some (ms * 1000000)).

End Inputs.

(** * Properties *)

(** ** Durations *)

Module GoTimeFacts.
Import GoTime.

Lemma saturate_lt (d bound : Z) :
  minDuration < bound <= maxDuration ->
  (saturate d <? bound) = (d <? bound).
Proof.
  unfold saturate, minDuration, maxDuration. intros Hb.
  destruct (d <? - 2 ^ 63) eqn:Hlo; [ | destruct (2 ^ 63 - 1 <? d) eqn:Hhi ];
    lia.
Qed.

Lemma Sub_lt (t u : Time) (bound : Z) :
  minDuration < bound <= maxDuration ->
  (Sub t u <? bound) = (spacing t u <? bound).
Proof. apply saturate_lt. Qed.

Lemma spacing_zero (t : Time) : spacing t zero = wall t.
Proof. unfold spacing, zero. destruct (mono t); simpl; lia. Qed.

End GoTimeFacts.

(** ** Samples *)

Module Float32Facts.
Import Float32.

Lemma digits2_pos_lower (p : positive) :
  2 ^ (Zpos (digits2_pos p) - 1) <= Zpos p.
Proof.
  induction p as [p IH | p IH | ]; simpl digits2_pos.
  - rewrite Pos2Z.inj_succ.
    replace (Z.succ (Zpos (digits2_pos p)) - 1)
      with (Z.succ (Zpos (digits2_pos p) - 1)) by lia.
    rewrite Z.pow_succ_r by lia. lia.
  - rewrite Pos2Z.inj_succ.
    replace (Z.succ (Zpos (digits2_pos p)) - 1)
      with (Z.succ (Zpos (digits2_pos p) - 1)) by lia.
    rewrite Z.pow_succ_r by lia. lia.
  - simpl. lia.
Qed.

Lemma mod_pow2_succ (a n : Z) :
  0 <= n -> a mod 2 ^ (n + 1) = 0 ->
  a mod 2 ^ n = 0 /\ (a / 2 ^ n) mod 2 = 0.
Proof.
  intros Hn H. rewrite Z.pow_add_r, Z.pow_1_r in H by lia.
  assert (0 < 2 ^ n) as Hpos by (apply Z.pow_pos_nonneg; lia).
  rewrite Z.rem_mul_r in H by lia.
  pose proof (Z.mod_pos_bound a (2 ^ n) Hpos).
  pose proof (Z.mod_pos_bound (a / 2 ^ n) 2 ltac:(lia)).
  nia.
Qed.

Lemma shifted_0 (m0 : Z) : shifted m0 0 (Build_shr_record m0 false false).
Proof. unfold shifted. simpl. rewrite Z.div_1_r. auto. Qed.

Lemma shr_1_shifted (m0 n : Z) (mrs : shr_record) :
  0 <= m0 -> 0 <= n -> shifted m0 n mrs -> shifted m0 (n + 1) (shr_1 mrs).
Proof.
  intros Hm0 Hn [Hm Hex]. destruct mrs as [m r s]. simpl in Hm, Hex.
  assert (0 < 2 ^ n) as Hpos by (apply Z.pow_pos_nonneg; lia).
  assert (m0 / 2 ^ (n + 1) = m / 2) as Hdiv.
  { rewrite Z.pow_add_r, Z.pow_1_r, <- Z.div_div by lia. now rewrite Hm. }
  assert (0 <= m) as Hnonneg by (rewrite Hm; apply Z.div_pos; lia).
  unfold shifted. rewrite Hdiv. split.
  - destruct m as [ | [p | p | ] | p ]; simpl shr_1; simpl shr_m; try lia.
    + reflexivity.
    + rewrite Pos2Z.inj_xI. apply Z.div_unique with (r := 1); lia.
    + rewrite Pos2Z.inj_xO. apply Z.div_unique with (r := 0); lia.
    + reflexivity.
  - intros Hz. destruct (mod_pow2_succ m0 n Hn Hz) as [Hz1 Hz2].
    destruct (Hex Hz1) as [-> ->]. rewrite <- Hm in Hz2.
    destruct m as [ | [p | p | ] | p ]; simpl; auto; try lia.
    + exfalso. rewrite Pos2Z.inj_xI, Z.add_comm, Z.mul_comm, Z.mod_add in Hz2
        by lia. discriminate.
    + discriminate.
Qed.

Lemma iter_pos_shifted (m0 : Z) (p : positive) :
  0 <= m0 ->
  forall (n : Z) (mrs : shr_record),
    0 <= n -> shifted m0 n mrs ->
    shifted m0 (n + Zpos p) (SpecFloat.iter_pos shr_1 p mrs).
Proof.
  intros Hm0. induction p as [p IH | p IH | ]; intros n mrs Hn H; simpl.
  - replace (n + Zpos p~1) with (n + 1 + Zpos p + Zpos p) by lia.
    apply IH; [ lia | ]. apply IH; [ lia | ].
    now apply shr_1_shifted.
  - replace (n + Zpos p~0) with (n + Zpos p + Zpos p) by lia.
    apply IH; [ lia | ]. now apply IH.
  - now apply shr_1_shifted.
Qed.

Lemma shr_exact (m e n : Z) :
  0 <= m ->
  shifted m (Z.max 0 n) (fst (shr (Build_shr_record m false false) e n)) /\
  snd (shr (Build_shr_record m false false) e n) = e + Z.max 0 n.
Proof.
  intros Hm. destruct n as [ | p | p ]; simpl.
  - split; [ apply shifted_0 | lia ].
  - split; [ | reflexivity ].
    apply (iter_pos_shifted m p Hm 0); [ lia | apply shifted_0 ].
  - split; [ apply shifted_0 | lia ].
Qed.

Lemma round_nearest_even_bounds (mrs : shr_record) :
  let m := round_nearest_even (shr_m mrs) (loc_of_shr_record mrs) in
  shr_m mrs <= m <= shr_m mrs + 1 /\
  (shr_r mrs = false /\ shr_s mrs = false -> m = shr_m mrs).
Proof.
  destruct mrs as [m [ | ] [ | ]]; simpl; try destruct (Z.even m);
    (split; [ lia | intros []; congruence || reflexivity ]).
Qed.

Lemma fexp_nonpos (B m e : Z) :
  0 < m -> B <= 2 ^ 15 -> e <= 0 -> m <= B * 2 ^ (- e) ->
  fexp prec emax (Zdigits2 m + e) <= 0.
Proof.
  intros Hm HB He Hle. destruct m as [ | p | p ]; try lia. simpl Zdigits2.
  pose proof (digits2_pos_lower p) as Hd.
  assert (0 < 2 ^ (- e)) as Hpos by (apply Z.pow_pos_nonneg; lia).
  assert (2 ^ (Zpos (digits2_pos p) - 1) <= 2 ^ (15 - e)) as Hpow.
  { replace (15 - e) with (15 + - e) by lia. rewrite Z.pow_add_r by lia. nia. }
  apply Z.pow_le_mono_r_iff in Hpow; [ | lia | lia ].
  unfold fexp, emin, prec, emax. lia.
Qed.

Lemma shr_fexp_exact (m e : Z) :
  0 <= m ->
  let k := Z.max 0 (fexp prec emax (Zdigits2 m + e) - e) in
  shifted m k (fst (shr_fexp prec emax m e loc_Exact)) /\
  snd (shr_fexp prec emax m e loc_Exact) = e + k.
Proof. intros Hm. unfold shr_fexp. simpl shr_record_of_loc. now apply shr_exact. Qed.

Lemma div_pow2_bound (m N e k : Z) :
  0 <= k -> 0 <= - e - k -> 0 <= m -> m <= N * 2 ^ (- e) ->
  0 <= m / 2 ^ k <= N * 2 ^ (- e - k) /\
  (m / 2 ^ k = N * 2 ^ (- e - k) -> m mod 2 ^ k = 0).
Proof.
  intros Hk Hek Hm Hle.
  replace (- e) with (- e - k + k) in Hle by lia.
  rewrite Z.pow_add_r in Hle by lia.
  assert (0 < 2 ^ k) as Hpos by (apply Z.pow_pos_nonneg; lia).
  set (P := 2 ^ k) in *. set (N' := N * 2 ^ (- e - k)).
  assert (m <= P * N') as Hle' by (unfold N'; lia).
  pose proof (Z.div_mod m P ltac:(lia)) as Hdm.
  pose proof (Z.mod_pos_bound m P Hpos) as Hmod.
  repeat split.
  - apply Z.div_pos; lia.
  - apply Z.div_le_upper_bound; assumption.
  - intros Heq. rewrite Heq in Hdm. lia.
Qed.

(** Rounding to nearest even never passes an integer bound. *)
Lemma round_magnitude (B : Z) (sx : bool) (M E : Z) :
  0 < B <= 2 ^ 15 -> 0 < M -> E <= 0 -> M <= B * 2 ^ (- E) ->
  magnitude_le B (binary_round_aux prec emax sx M E loc_Exact).
Proof.
  intros HB HM HE Hle. unfold binary_round_aux.
  destruct (shr_fexp_exact M E ltac:(lia)) as [[Hm1 Hex1] He1].
  pose proof (fexp_nonpos B M E HM (proj2 HB) HE Hle) as Hf1.
  destruct (shr_fexp prec emax M E loc_Exact) as [mrs1 e1].
  simpl in Hm1, Hex1, He1.
  set (k1 := Z.max 0 (fexp prec emax (Zdigits2 M + E) - E)) in *.
  destruct (round_nearest_even_bounds mrs1) as [Hr Hrex].
  set (mr := round_nearest_even (shr_m mrs1) (loc_of_shr_record mrs1)) in *.
  assert (e1 <= 0) as He1' by lia.
  assert (0 <= mr <= B * 2 ^ (- e1)) as Hmr.
  { destruct (div_pow2_bound M B E k1) as [Hb Hx]; try lia.
    replace (- E - k1) with (- e1) in Hb, Hx by lia.
    rewrite <- Hm1 in Hb, Hx.
    destruct (Z.eq_dec (shr_m mrs1) (B * 2 ^ (- e1))) as [Heq | Hne].
    - rewrite Hrex by (apply Hex1, Hx, Heq). lia.
    - lia. }
  destruct (shr_fexp_exact mr e1 ltac:(lia)) as [[Hm2 _] He2].
  destruct (shr_fexp prec emax mr e1 loc_Exact) as [mrs2 e2].
  simpl in Hm2, He2.
  set (k2 := Z.max 0 (fexp prec emax (Zdigits2 mr + e1) - e1)) in *.
  assert (0 < 2 ^ k2) as Hpos2 by (apply Z.pow_pos_nonneg; lia).
  destruct (shr_m mrs2) as [ | m | m ] eqn:Hm2v.
  - exact I.
  - assert (0 < mr) as Hmr_pos.
    { destruct (Z.eq_dec mr 0) as [Hz | Hnz]; [ | lia ].
      rewrite Hz, Z.div_0_l in Hm2 by lia. discriminate. }
    pose proof (fexp_nonpos B mr e1 Hmr_pos (proj2 HB) He1' (proj2 Hmr)) as Hf2.
    assert (e2 <= 0) as He2' by lia.
    destruct (Z.leb_spec e2 (emax - prec)) as [ _ | Hbig ];
      [ | unfold emax, prec in Hbig; lia ].
    simpl. split; [ exact He2' | ].
    destruct (div_pow2_bound mr B e1 k2) as [Hb _]; try lia.
    replace (- e1 - k2) with (- e2) in Hb by lia. lia.
  - pose proof (Z.div_pos mr (2 ^ k2) ltac:(lia) Hpos2). lia.
Qed.

Lemma of_Z_32767 : of_Z 32767 = S754_finite false 16776704 (-9).
Proof. reflexivity. Qed.

(** The product of a sample in the unit range with 32767 stays within
    32767. *)
Lemma mul_unit_range (x : float32) :
  in_unit_range x = true -> magnitude_le 32767 (mul x (of_Z 32767)).
Proof.
  rewrite of_Z_32767. destruct x as [s | s | | s m e]; simpl; try discriminate.
  - intros _. exact I.
  - intros [He Hm]%andb_prop. apply Z.leb_le in He, Hm.
    apply round_magnitude; try lia.
    replace (- (e + -9)) with (- e + 9) by lia.
    rewrite Z.pow_add_r by lia.
    rewrite Pos2Z.inj_mul. change (2 ^ 9) with 512. lia.
Qed.

Lemma truncate_magnitude (B : Z) (x : float32) :
  0 <= B -> magnitude_le B x ->
  exists z : Z, truncate x = Some z /\ - B <= z <= B.
Proof.
  intros HB. destruct x as [s | s | | s m e]; simpl; try easy.
  - intros _. exists 0. split; [ reflexivity | lia ].
  - intros [He Hm]. eexists. split; [ reflexivity | ].
    assert (0 <= (if 0 <=? e then Zpos m * 2 ^ e else Zpos m / 2 ^ (- e)) <= B)
      as Hv.
    { destruct (Z.leb_spec 0 e) as [H0 | Hneg].
      - replace e with 0 in * by lia. simpl in Hm. lia.
      - assert (0 < 2 ^ (- e)) by (apply Z.pow_pos_nonneg; lia).
        split; [ apply Z.div_pos; lia | ].
        apply Z.div_le_upper_bound; lia. }
    destruct s; simpl; lia.
Qed.

(** Discarding the fraction of a finite float is discarding the fraction
    of its exact value. *)
Lemma truncate_toward_zero (x : float32) (z : Z) :
  truncate x = Some z -> z = toward_zero (to_Q x).
Proof.
  destruct x as [s | s | | s m e]; simpl; try discriminate.
  - intros [= <-]. reflexivity.
  - intros [= <-]. unfold toward_zero.
    destruct (Z.leb_spec 0 e) as [H0 | Hneg]; simpl.
    + now rewrite Z.quot_1_r.
    + assert (0 < 2 ^ (- e)) as Hpos by (apply Z.pow_pos_nonneg; lia).
      rewrite Z2Pos.id by assumption.
      destruct s; simpl.
      * change (Z.neg m) with (- Zpos m).
        rewrite Z.quot_opp_l by lia.
        rewrite Z.quot_div_nonneg by lia. reflexivity.
      * rewrite Z.quot_div_nonneg by lia. reflexivity.
Qed.

Lemma int16_small (v : Z) : - 2 ^ 15 <= v < 2 ^ 15 -> int16 v = v.
Proof.
  intros H. unfold int16. rewrite Z.mod_small by lia. lia.
Qed.

(** A sample in the unit range is stored as its float32 product with
    32767, fraction discarded: the conversion to [int] is defined, and the
    16-bit store keeps the value. *)
Lemma stored_unit_range (unrepresentable : float32 -> Z) (x : float32) :
  in_unit_range x = true ->
  let v := to_int unrepresentable (mul x (of_Z 32767)) in
  v = toward_zero (to_Q (mul x (of_Z 32767))) /\
  - 32767 <= v <= 32767 /\
  int16 v = v.
Proof.
  intros Hx.
  destruct (truncate_magnitude 32767 _ ltac:(lia) (mul_unit_range x Hx))
    as (z & Hz & Hb).
  cbv zeta. unfold to_int. rewrite Hz.
  assert ((minInt <=? z) && (z <=? maxInt) = true) as ->.
  { unfold minInt, maxInt. apply andb_true_intro.
    split; apply Z.leb_le; lia. }
  split; [ now apply truncate_toward_zero | ].
  split; [ exact Hb | apply int16_small; lia ].
Qed.

End Float32Facts.

(** ** The finalize step *)

Module AudioFacts.
Import Float32 Float32Facts Audio.

Lemma stored_samples (unrepresentable : float32 -> Z) (samples : list float32) :
  forallb in_unit_range samples = true ->
  List.map int16 (intBuffer unrepresentable samples) =
    List.map truncated_product samples /\
  Forall (fun v => - 32767 <= v <= 32767) (List.map truncated_product samples).
Proof.
  unfold intBuffer.
  induction samples as [ | x rest IH]; cbn [List.map forallb]; intros H.
  - split; constructor.
  - apply andb_prop in H as [Hx Hrest].
    destruct (IH Hrest) as [IH1 IH2].
    destruct (stored_unit_range unrepresentable x Hx) as (Hv & Hb & H16).
    cbv zeta in Hv, Hb, H16.
    change (truncated_product x)
      with (toward_zero (to_Q (mul x (of_Z 32767)))).
    rewrite <- Hv. split.
    + rewrite H16. f_equal. exact IH1.
    + constructor; assumption.
Qed.

Lemma saveAudioToFile_ok (unrepresentable : float32 -> Z) (env : SaveEnv)
    (samples : list float32) (fs : gmap string WavFile) (fullPath : string) :
  Abs env (fileName env) = inl fullPath ->
  create_err env = None -> write_err env = None ->
  saveAudioToFile unrepresentable env samples fs =
  (returned fullPath,
   <[fullPath := encode (intBuffer unrepresentable samples)]> fs).
Proof. intros Ha Hc Hw. unfold saveAudioToFile. now rewrite Ha, Hc, Hw. Qed.

(** C6, as the code has it.  For samples in [-1, 1] the finalize step,
    when the system lets it create and write the file, leaves a 16-bit mono
    file at the returned path whose stored sample [i] is the float32
    product [sample_i * 32767] with its fraction discarded (not rounded to
    nearest); every stored sample is within [-32767, 32767], so neither
    the conversion to [int] nor the 16-bit store changes it. *)
Theorem finalize_truncates (unrepresentable : float32 -> Z) (env : SaveEnv)
    (samples : list float32) (fs : gmap string WavFile) (fullPath : string) :
  forallb in_unit_range samples = true ->
  Abs env (fileName env) = inl fullPath ->
  create_err env = None -> write_err env = None ->
  exists file : WavFile,
    saveAudioToFile unrepresentable env samples fs =
      (returned fullPath, <[fullPath := file]> fs) /\
    (<[fullPath := file]> fs) !! fullPath = Some file /\
    wavBitDepth file = 16 /\ wavNumChans file = 1 /\
    wavSampleRate file = 44100 /\
    wavData file = List.map truncated_product samples /\
    (forall i : nat,
        wavData file !! i = truncated_product <$> (samples !! i)) /\
    Forall (fun v => - 32767 <= v <= 32767) (wavData file).
Proof.
  intros Hrange Ha Hc Hw.
  destruct (stored_samples unrepresentable samples Hrange) as [Hdata Hbound].
  exists (encode (intBuffer unrepresentable samples)).
  split; [ now apply saveAudioToFile_ok | ].
  split; [ apply lookup_insert_eq | ].
  simpl. rewrite Hdata. repeat split; try assumption.
  intros i. apply list_lookup_fmap.
Qed.

(** C6, as stated, fails: the sample 0.25 has the exact product 8191.75
    with 32767; the file stores 8191, and the nearest integer is 8192. *)
Lemma finalize_does_not_round :
  let samples := [Inputs.quarter] in
  let result :=
    saveAudioToFile Inputs.unrepresentable Inputs.save_ok samples ∅ in
  forallb in_unit_range samples = true /\
  valid Inputs.quarter = true /\
  Qeq (to_Q Inputs.quarter * inject_Z 32767) (32767 # 4) /\
  fst result = returned Inputs.saved_path /\
  wavData <$> (snd result !! Inputs.saved_path) = Some [8191] /\
  List.map rounded_sample samples = [8192].
Proof. vm_compute. repeat split; intros; discriminate. Qed.

Lemma finalize_truncates_witness :
  let samples := Inputs.block in
  let env := Inputs.save_ok in
  forallb in_unit_range samples = true /\
  Abs env (fileName env) = inl Inputs.saved_path /\
  create_err env = None /\ write_err env = None /\
  exists file : WavFile,
    saveAudioToFile Inputs.unrepresentable env samples ∅ =
      (returned Inputs.saved_path, <[Inputs.saved_path := file]> ∅) /\
    (<[Inputs.saved_path := file]> (∅ : gmap string WavFile))
      !! Inputs.saved_path = Some file /\
    wavBitDepth file = 16 /\ wavNumChans file = 1 /\
    wavSampleRate file = 44100 /\
    wavData file = List.map truncated_product samples /\
    (forall i : nat,
        wavData file !! i = truncated_product <$> (samples !! i)) /\
    Forall (fun v => - 32767 <= v <= 32767) (wavData file).
Proof.
  do 4 (split; [ reflexivity | ]).
  exact (finalize_truncates Inputs.unrepresentable Inputs.save_ok
           Inputs.block ∅ Inputs.saved_path eq_refl eq_refl eq_refl eq_refl).
Defined.

End AudioFacts.

(** ** One recording attempt *)

Module RecorderFacts.
Import Float32 Audio AudioFacts Recorder.

(** What the conversion loop and the encoder leave in the file, sample by
    sample. *)
Lemma recording_encoded (unrepresentable : float32 -> Z)
    (samples : list float32) :
  encode (intBuffer unrepresentable samples) =
  recording unrepresentable samples.
Proof.
  unfold encode, intBuffer, recording. now rewrite List.map_map.
Qed.

Lemma recording_length_app (unrepresentable : float32 -> Z)
    (samples more : list float32) :
  length (wavData (recording unrepresentable (samples ++ more)%list)) =
  (length samples + length more)%nat.
Proof.
  unfold recording. cbn [wavData].
  now rewrite List.length_map, List.length_app.
Qed.

(** A sample keeps its position in the file, whatever follows it. *)
Lemma recording_lookup (unrepresentable : float32 -> Z)
    (samples more : list float32) (i : nat) (sample : float32) :
  samples !! i = Some sample ->
  wavData (recording unrepresentable (samples ++ more)%list) !! i =
  Some (int16 (to_int unrepresentable (mul sample (of_Z 32767)))).
Proof.
  intros Hi. unfold recording. cbn [wavData].
  change (List.map (sample16 unrepresentable) (samples ++ more)%list)
    with (sample16 unrepresentable <$> (samples ++ more)%list).
  rewrite list_lookup_fmap.
  rewrite (lookup_app_l_Some samples more i sample Hi). reflexivity.
Qed.

Section Steps.
Variable unrepresentable : float32 -> Z.
Variable env : Env.

Abbreviation step := (step unrepresentable env).
Abbreviation run := (run unrepresentable env).

Lemma run_invariant (P : State -> Prop) (ok : Action -> bool) :
  (forall st a, ok a = true -> P st -> P (step st a)) ->
  forall (schedule : list Action) (st : State),
    forallb ok schedule = true -> P st -> P (run st schedule).
Proof.
  intros Hstep. induction schedule as [ | a rest IH]; intros st Hok HP.
  - exact HP.
  - simpl in Hok. apply andb_prop in Hok as [Ha Hrest].
    simpl. apply IH; [ exact Hrest | ]. now apply Hstep.
Qed.

Lemma forallb_all (schedule : list Action) :
  forallb (fun _ => true) schedule = true.
Proof. induction schedule; simpl; auto. Qed.

(** As long as no double press is handled, the flag is cleared on every
    path through line 265; the two early returns are the only ones that
    leave it as it was. *)
Lemma step_flag_cleared (st : State) (a : Action) :
  negb (is_double a) = true -> flag_cleared st -> flag_cleared (step st a).
Proof.
  unfold flag_cleared, stream_not_running.
  destruct a as [ | | | b | ]; simpl; try discriminate;
    unfold main_step, loop_step; intros _ H.
  - exact H.
  - destruct (dictating st) eqn:Hd; simpl; [ | rewrite ?Hd; exact H ].
    destruct (mainPC st); auto.
  - destruct (mainPC st) eqn:Hpc.
    + destruct (open_err env); simpl; eauto.
    + destruct (start_err env); simpl; eauto.
    + destruct b; [ destruct (cancelled st) | destruct (recordingDone st) ];
        simpl; rewrite ?Hpc; exact I.
    + reflexivity.
    + destruct (stop_err env); simpl; auto.
    + destruct (Abs (save env) (fileName (save env)));
        [ destruct (create_err (save env)) | ]; simpl; auto.
    + destruct (write_err (save env)); simpl; auto.
    + rewrite Hpc. exact H.
  - destruct (loopPC st);
      [ | destruct (dictating st) eqn:Hd | destruct (cancelled st)
        | destruct (reads env (readCount st)) | | ];
      simpl; rewrite ?Hd; exact H.
Qed.

Lemma flag_cleared_at_return (fs0 : gmap string WavFile)
    (schedule : list Action) (r : GoResult) :
  forallb (fun a => negb (is_double a)) schedule = true ->
  mainPC (run (start fs0) schedule) = MReturned r ->
  dictating (run (start fs0) schedule) = false \/ stream_not_running r.
Proof.
  intros Hno Hr.
  assert (flag_cleared (run (start fs0) schedule)) as H.
  { apply (run_invariant flag_cleared (fun a => negb (is_double a))).
    - apply step_flag_cleared.
    - exact Hno.
    - exact I. }
  unfold flag_cleared in H. now rewrite Hr in H.
Qed.

(** Without the lifecycle signal nothing wakes a body that waits for a
    goroutine that has returned without closing [recordingDone]. *)
Lemma step_stuck (st : State) (a : Action) :
  negb (is_cancel a) = true -> stuck st -> stuck (step st a).
Proof.
  unfold stuck. intros Ha (Hm & Hl & Hd & Hc).
  destruct a as [ | | | b | ]; simpl in *; try discriminate.
  - destruct (dictating st); simpl; auto.
  - destruct (dictating st); simpl; auto.
  - unfold main_step. rewrite Hm. destruct b; rewrite ?Hc, ?Hd; auto.
  - unfold loop_step. rewrite Hl. auto.
Qed.

Lemma stuck_forever (st : State) (schedule : list Action) :
  forallb (fun a => negb (is_cancel a)) schedule = true ->
  stuck st -> stuck (run st schedule).
Proof.
  intros Hno Hst.
  apply (run_invariant stuck (fun a => negb (is_cancel a))); auto.
  apply step_stuck.
Qed.

Section Finalizing.
Variable fullPath : string.
Variable captured : list float32.
Hypothesis stop_ok : stop_err env = None.
Hypothesis abs_ok : Abs (save env) (fileName (save env)) = inl fullPath.
Hypothesis create_ok : create_err (save env) = None.
Hypothesis write_ok : write_err (save env) = None.

Abbreviation finalizing := (finalizing unrepresentable fullPath captured).

Lemma step_finalizing (st : State) (a : Action) :
  finalizing st -> finalizing (step st a).
Proof.
  unfold Recorder.finalizing. intros (Hc & [more Hmore] & Hpc).
  destruct a as [ | | | b | ]; simpl.
  - eauto.
  - destruct (dictating st); simpl; eauto.
  - destruct (dictating st); simpl; eauto.
  - unfold main_step. destruct (mainPC st) eqn:Hm; try contradiction.
    + destruct b; [ rewrite Hc | destruct (recordingDone st) ]; simpl;
        rewrite ?Hm; eauto.
    + simpl. eauto.
    + rewrite stop_ok. simpl. repeat split; eauto.
      apply in_or_app. right. left. reflexivity.
    + rewrite abs_ok, create_ok. simpl. repeat split; eauto.
    + destruct Hpc as (-> & Hin & [more' ->]).
      rewrite write_ok. simpl. repeat split; eauto.
      * apply in_or_app. now left.
      * exists more'. rewrite recording_encoded. apply lookup_insert_eq.
    + rewrite Hm. eauto.
  - unfold loop_step.
    destruct (loopPC st);
      [ | destruct (dictating st) | destruct (cancelled st) eqn:Hc'
        | destruct (reads env (readCount st)) as [err | block] | | ];
      simpl; repeat split; eauto;
      try (destruct (mainPC st); try easy;
           try (apply in_or_app; now left);
           destruct Hpc as (Hr & Hin & Hfs); repeat split; auto;
           apply in_or_app; now left).
    exists (more ++ block)%list. rewrite Hmore. now rewrite app_assoc.
Qed.

Lemma run_finalizing (st : State) (schedule : list Action) :
  finalizing st -> finalizing (run st schedule).
Proof.
  intros H. apply (run_invariant _ (fun _ => true)); auto.
  - intros s a _. apply step_finalizing.
  - apply forallb_all.
Qed.

Lemma waiting_finalizing (st : State) :
  mainPC st = MWait -> cancelled st = true ->
  allSamples st = captured -> finalizing st.
Proof.
  intros Hm Hc Hs. unfold Recorder.finalizing. rewrite Hm.
  repeat split; [ exact Hc | ].
  exists []. now rewrite app_nil_r.
Qed.
End Finalizing.

End Steps.

Section Body.
Variable unrepresentable : float32 -> Z.
Variable env : Env.

Abbreviation main_step := (main_step unrepresentable env).

Lemma main_wait_cancelled (st : State) :
  mainPC st = MWait -> cancelled st = true ->
  main_step OnCtxDone st =
  main_goto MClear (print "Context cancelled, recording stopped" st).
Proof. intros Hm Hc. unfold Recorder.main_step. now rewrite Hm, Hc. Qed.

Lemma main_clear (b : Branch) (st : State) :
  mainPC st = MClear ->
  main_step b st = main_goto MStop (set_dictating false st).
Proof. intros Hm. unfold Recorder.main_step. now rewrite Hm. Qed.

Lemma main_stop_ok (b : Branch) (st : State) :
  mainPC st = MStop -> stop_err env = None ->
  main_step b st = main_goto MSave (call SStop st).
Proof. intros Hm Hs. unfold Recorder.main_step. now rewrite Hm, Hs. Qed.

Lemma main_save_ok (b : Branch) (st : State) (fullPath : string) :
  mainPC st = MSave ->
  Abs (save env) (fileName (save env)) = inl fullPath ->
  create_err (save env) = None ->
  main_step b st =
  main_goto (MWrite fullPath (allSamples st))
    (set_fs (<[fullPath := encode []]> (fs st)) st).
Proof.
  intros Hm Ha Hc. unfold Recorder.main_step. now rewrite Hm, Ha, Hc.
Qed.

Lemma main_write_ok (b : Branch) (st : State) (fullPath : string)
    (samples : list float32) :
  mainPC st = MWrite fullPath samples -> write_err (save env) = None ->
  main_step b st =
  main_goto (MReturned (returned fullPath))
    (call SClose
       (set_fs (<[fullPath := encode (intBuffer unrepresentable samples)]>
                  (fs st)) st)).
Proof. intros Hm Hw. unfold Recorder.main_step. now rewrite Hm, Hw. Qed.

(** The two steps of the finalize step, taken one after the other, are
    [saveAudioToFile] on the samples collected when it is called. *)
Lemma save_in_two_steps (b b' : Branch) (st : State) :
  mainPC st = MSave ->
  main_step b' (main_step b st) =
  let '(r, fs') :=
    saveAudioToFile unrepresentable (save env) (allSamples st) (fs st) in
  main_goto (MReturned r) (call SClose (set_fs fs' st)).
Proof.
  intros Hm. unfold Recorder.main_step at 2. rewrite Hm.
  unfold saveAudioToFile.
  destruct (Abs (save env) (fileName (save env))) as [fullPath | err];
    [ destruct (create_err (save env)) as [err | ] | ];
    try (destruct st; reflexivity).
  unfold Recorder.main_step. cbn [mainPC main_goto set_fs].
  destruct (write_err (save env)); cbn [fs set_fs main_goto];
    [ destruct st; reflexivity | ].
  rewrite insert_insert_eq. destruct st; reflexivity.
Qed.

Lemma main_open_ok (b : Branch) (st : State) :
  mainPC st = MOpen -> open_err env = None ->
  main_step b st = main_goto MStart (call SOpen st).
Proof. intros Hm Ho. unfold Recorder.main_step. now rewrite Hm, Ho. Qed.

Lemma main_start_ok (b : Branch) (st : State) :
  mainPC st = MStart -> start_err env = None ->
  main_step b st =
  main_goto MWait
    (loop_goto LCheck
       (print "Recording... Press the dictation key again to stop."
          (call SStart st))).
Proof. intros Hm Hs. unfold Recorder.main_step. now rewrite Hm, Hs. Qed.

Lemma loop_check_on (st : State) :
  loopPC st = LCheck -> dictating st = true ->
  loop_step env st = loop_goto LSelect st.
Proof. intros Hl Hd. unfold loop_step. now rewrite Hl, Hd. Qed.

Lemma loop_select_live (st : State) :
  loopPC st = LSelect -> cancelled st = false ->
  loop_step env st = loop_goto LRead (print "." st).
Proof. intros Hl Hc. unfold loop_step. now rewrite Hl, Hc. Qed.

Lemma loop_read_error (st : State) (err : Error) :
  loopPC st = LRead -> reads env (readCount st) = inl err ->
  loop_step env st =
  loop_goto LExited
    (print ("Error reading from stream: " ++ err) (call SRead st)).
Proof. intros Hl Hr. unfold loop_step. now rewrite Hl, Hr. Qed.

Lemma step_keeps_cancelled (st : State) (a : Action) :
  cancelled st = true -> cancelled (step unrepresentable env st a) = true.
Proof.
  intros Hc. destruct a as [ | | | b | ]; simpl.
  - reflexivity.
  - destruct (dictating st); exact Hc.
  - destruct (dictating st); exact Hc.
  - unfold Recorder.main_step.
    destruct (mainPC st);
      [ destruct (open_err env) | destruct (start_err env)
      | destruct b; [ rewrite Hc | destruct (recordingDone st) ]
      | | destruct (stop_err env)
      | destruct (Abs (save env) (fileName (save env)));
          [ destruct (create_err (save env)) | ]
      | destruct (write_err (save env)) | ]; simpl; auto.
  - unfold loop_step.
    destruct (loopPC st);
      [ | destruct (dictating st) | rewrite Hc
        | destruct (reads env (readCount st)) | | ]; simpl; auto.
Qed.

Lemma run_keeps_cancelled (st : State) (schedule : list Action) :
  cancelled st = true -> cancelled (run unrepresentable env st schedule) = true.
Proof.
  intros Hc.
  apply (run_invariant unrepresentable env
           (fun s => cancelled s = true) (fun _ => true)); auto.
  - intros s a _. apply step_keeps_cancelled.
  - apply forallb_all.
Qed.

(** With the signal fired, a goroutine at its loop condition ends within
    its next two steps and reads no further block. *)
Lemma loop_check_cancelled (st : State) :
  loopPC st = LCheck -> cancelled st = true ->
  let st' := loop_step env (loop_step env st) in
  loop_ended st' = true /\ allSamples st' = allSamples st /\
  readCount st' = readCount st.
Proof.
  intros Hl Hc. unfold loop_step at 2. rewrite Hl.
  destruct (dictating st); unfold loop_step, loop_ended; simpl;
    rewrite ?Hc; simpl; auto.
Qed.
End Body.

(** C3, at the failing inputs.  When the stream cannot be opened, or
    cannot be started, [recordAudio] returns its error at once and the
    flag is still set: the assignment at the end of the body is not
    reached. *)
Theorem stream_failure_leaves_flag_set
    (unrepresentable : float32 -> Z) (err : Error)
    (start_or_not stop_or_not : option Error)
    (reads : nat -> Error + list float32) (save : SaveEnv)
    (fs0 : gmap string WavFile) (b b' : Branch) :
  let no_open := mkEnv (Some err) start_or_not reads stop_or_not save in
  let no_start := mkEnv None (Some err) reads stop_or_not save in
  let st1 := run unrepresentable no_open (start fs0) [Main b] in
  let st2 := run unrepresentable no_start (start fs0) [Main b; Main b'] in
  (mainPC st1 = MReturned (failed (wrap "opening audio stream" err)) /\
   dictating st1 = true) /\
  (mainPC st2 = MReturned (failed (wrap "starting audio stream" err)) /\
   dictating st2 = true).
Proof. simpl. repeat split. Qed.

(** C4, at the failing input.  When the first [stream.Read()] fails, the
    goroutine prints the error and returns without closing
    [recordingDone]; the body of [recordAudio] then stays at its select
    under every schedule in which the lifecycle signal does not fire: it
    does not return, and the flag is still set. *)
Theorem read_error_blocks_recordAudio
    (unrepresentable : float32 -> Z) (env : Env) (err : Error)
    (fs0 : gmap string WavFile) (b b' : Branch) :
  open_err env = None -> start_err env = None ->
  reads env 0%nat = inl err ->
  let st :=
    run unrepresentable env (start fs0) [Main b; Main b'; Loop; Loop; Loop] in
  last (console st) = Some ("Error reading from stream: " ++ err)%string /\
  loopPC st = LExited /\ dictating st = true /\
  forall schedule : list Action,
    forallb (fun a => negb (is_cancel a)) schedule = true ->
    mainPC (run unrepresentable env st schedule) = MWait /\
    has_returned (run unrepresentable env st schedule) = false.
Proof.
  intros Ho Hs Hr st.
  assert (st =
          loop_goto LExited
            (print ("Error reading from stream: " ++ err)
               (call SRead
                  (loop_goto LRead
                     (print "."
                        (loop_goto LSelect
                           (main_goto MWait
                              (loop_goto LCheck
                                 (print "Recording... Press the dictation key again to stop."
                                    (call SStart
                                       (main_goto MStart
                                          (call SOpen (start fs0)))))))))))))
    as Hst.
  { subst st. cbn [run fold_left step].
    rewrite (main_open_ok _ _ b (start fs0)) by (reflexivity || assumption).
    rewrite main_start_ok by (reflexivity || assumption).
    match goal with
    | |- context [loop_step env (main_goto ?pc ?s)] =>
        rewrite (loop_check_on env (main_goto pc s)) by reflexivity
    end.
    match goal with
    | |- context [loop_step env (loop_goto LSelect ?s)] =>
        rewrite (loop_select_live env (loop_goto LSelect s)) by reflexivity
    end.
    match goal with
    | |- context [loop_step env (loop_goto LRead ?s)] =>
        rewrite (loop_read_error env (loop_goto LRead s) err)
          by (reflexivity || exact Hr)
    end.
    reflexivity. }
  assert (stuck st) as Hstuck by (rewrite Hst; unfold stuck; simpl; auto).
  split; [ | split; [ | split ] ].
  - rewrite Hst. cbn [console loop_goto print]. apply last_snoc.
  - now rewrite Hst.
  - now rewrite Hst.
  - intros schedule Hno.
    pose proof (stuck_forever unrepresentable env st schedule Hno Hstuck)
      as (Hm & _).
    unfold has_returned. now rewrite Hm.
Qed.


Lemma read_error_blocks_recordAudio_witness :
  let env := Inputs.read_fails in
  let st :=
    run Inputs.unrepresentable env (start ∅)
      [Main OnCtxDone; Main OnCtxDone; Loop; Loop; Loop] in
  let later := [Loop; Main OnRecordingDone; SinglePress; Main OnCtxDone] in
  open_err env = None /\ start_err env = None /\
  reads env 0%nat = inl "Input overflowed" /\
  forallb (fun a => negb (is_cancel a)) later = true /\
  last (console st) = Some "Error reading from stream: Input overflowed" /\
  mainPC (run Inputs.unrepresentable env st later) = MWait /\
  has_returned (run Inputs.unrepresentable env st later) = false.
Proof.
  do 4 (split; [ reflexivity | ]).
  destruct (read_error_blocks_recordAudio Inputs.unrepresentable
              Inputs.read_fails "Input overflowed" ∅ OnCtxDone OnCtxDone
              eq_refl eq_refl eq_refl) as (Hlast & _ & _ & Hblocked).
  split; [ exact Hlast | ].
  exact (Hblocked [Loop; Main OnRecordingDone; SinglePress; Main OnCtxDone]
           eq_refl).
Defined.


End RecorderFacts.

(** ** Transcription client and session *)

Module SessionFacts.
Import Json Session.

Lemma decode_without_text (members : list (string * Value)) (acc : GoResult) :
  lacks_text members = true -> fold_left decode_member members acc = acc.
Proof.
  revert acc. induction members as [ | member rest IH]; intros acc H.
  - reflexivity.
  - simpl in H. apply andb_prop in H as [Hm Hrest].
    simpl. unfold decode_member at 2.
    apply negb_true_iff in Hm. rewrite Hm. now apply IH.
Qed.

(** What [transcribeAudio] does once the response is decoded. *)
Lemma transcribeAudio_decoded (env : Env) (path : string) (w : World)
    (resp : Response) (text : string) :
  answered env path w resp ->
  Decode (Body resp) = returned text ->
  transcribeAudio env path w =
  (returned text,
   match remove_err env with
   | Some err =>
       print ("Warning: failed to remove temporary audio file: " ++ err) w
   | None => mkWorld (delete path (fs w)) (console w) (typed w)
   end).
Proof.
  intros (Ho & Hf & Hc & Hw & Hcl & Hn & Hd) Hdec.
  unfold transcribeAudio. rewrite Ho, Hf, Hc, Hw, Hcl, Hn, Hd, Hdec.
  unfold returned, os_Remove. destruct (remove_err env); reflexivity.
Qed.

(** C8. Once the response is decoded, [transcribeAudio] removes the
    audio file and returns the transcript with no error; when the removal
    fails it prints a warning, leaves the file, and returns the same
    transcript with no error. *)
Theorem removal_failure_is_a_warning (env : Env) (path : string) (w : World)
    (resp : Response) (text : string) :
  answered env path w resp ->
  Decode (Body resp) = returned text ->
  let result := transcribeAudio env path w in
  fst result = (text, None) /\
  match remove_err env with
  | None =>
      fs (snd result) = delete path (fs w) /\
      fs (snd result) !! path = None /\
      console (snd result) = console w
  | Some err =>
      fs (snd result) = fs w /\
      console (snd result) =
        (console w ++
         [("Warning: failed to remove temporary audio file: " ++ err)%string])%list
  end.
Proof.
  intros Ha Hdec. cbv zeta.
  rewrite (transcribeAudio_decoded env path w resp text Ha Hdec).
  split; [ reflexivity | ].
  destruct (remove_err env); simpl; repeat split.
  apply lookup_delete_eq.
Qed.

Lemma removal_failure_is_a_warning_witness :
  let env := Inputs.server Inputs.transcript (Some "permission denied") in
  let w := Inputs.one_recording in
  let result := transcribeAudio env Inputs.saved_path w in
  answered env Inputs.saved_path w Inputs.transcript /\
  Decode (Body Inputs.transcript) = returned "hello" /\
  fst result = ("hello", None) /\
  fs (snd result) = fs w /\
  console (snd result) =
    (console w ++
     ["Warning: failed to remove temporary audio file: permission denied"])%list.
Proof.
  assert (answered (Inputs.server Inputs.transcript (Some "permission denied"))
            Inputs.saved_path Inputs.one_recording Inputs.transcript) as Ha
    by (repeat split).
  split; [ exact Ha | ]. split; [ reflexivity | ].
  exact (removal_failure_is_a_warning
           (Inputs.server Inputs.transcript (Some "permission denied"))
           Inputs.saved_path Inputs.one_recording Inputs.transcript "hello"
           Ha eq_refl).
Defined.

(** C10, as the code has it.  When the response body is a JSON object
    none of whose members is named text, whatever the case of the letters
    of the name and whatever the status code, [transcribeAudio] returns the
    empty string with no error and removes the audio file as after any
    decoded response; the session prints the empty transcript and hands
    the empty string to the text injector. *)
Theorem missing_text_gives_empty_transcript (env : Env) (path : string)
    (w : World) (status : Z) (members : list (string * Value)) :
  answered env path w (mkResponse status (inl (JObject members))) ->
  lacks_text members = true ->
  let result := transcribeAudio env path w in
  let w' := startTranscription env (returned path) w in
  fst result = ("", None) /\
  (remove_err env = None -> fs (snd result) !! path = None) /\
  typed w' = (typed w ++ [""])%list /\
  last (console w') = Some "You said: ".
Proof.
  intros Ha Hlack. cbv zeta.
  assert (Decode (Body (mkResponse status (inl (JObject members)))) =
          returned "") as Hdec.
  { simpl. now apply decode_without_text. }
  pose proof (transcribeAudio_decoded env path w _ "" Ha Hdec) as Ht.
  assert (startTranscription env (returned path) w =
          TypeStr "" (print "You said: " (snd (transcribeAudio env path w))))
    as ->.
  { unfold startTranscription, returned in *. now rewrite Ht. }
  rewrite Ht.
  split; [ reflexivity | ]. split; [ | split ].
  - intros ->. simpl. apply lookup_delete_eq.
  - simpl. destruct (remove_err env); reflexivity.
  - cbn [TypeStr console print]. apply last_snoc.
Qed.

(** C10, as stated, fails.  A body that is valid JSON and has no text
    field need not be an object: when the body is a JSON string the
    decoder reports a type error, [transcribeAudio] returns it wrapped, the
    audio file stays on disk, and the session prints the error and types
    nothing.  And a field is matched whatever the case of its letters: an
    object whose only member is named TEXT gives the string of that member
    as the transcript. *)
Lemma valid_json_without_text_can_fail :
  let w := Inputs.one_recording in
  let resp := mkResponse 502 (inl (JString "Bad Gateway")) in
  let env := Inputs.server resp None in
  let result := transcribeAudio env Inputs.saved_path w in
  let w' := startTranscription env (returned Inputs.saved_path) w in
  let upper :=
    Inputs.server (mkResponse 200 (inl (JObject [("TEXT", JString "hi")])))
      None in
  answered env Inputs.saved_path w resp /\
  (exists err : Error, fst result = failed (wrap "decoding response" err)) /\
  fs (snd result) !! Inputs.saved_path = fs w !! Inputs.saved_path /\
  is_Some (fs (snd result) !! Inputs.saved_path) /\
  typed w' = [] /\
  (exists err : Error,
      console w' =
        [("Error transcribing: " ++ wrap "decoding response" err)%string]) /\
  fst (transcribeAudio upper Inputs.saved_path w) = returned "hi".
Proof.
  split; [ repeat split | ].
  split; [ eexists; reflexivity | ].
  split; [ reflexivity | ].
  split; [ eexists; reflexivity | ].
  split; [ reflexivity | ].
  split; [ eexists; reflexivity | reflexivity ].
Qed.

Lemma missing_text_gives_empty_transcript_witness :
  let env := Inputs.server Inputs.unauthorized None in
  let w := Inputs.one_recording in
  let members :=
    [("error",
      JObject [("message", JString "Incorrect API key"); ("code", JNull)])] in
  let result := transcribeAudio env Inputs.saved_path w in
  let w' := startTranscription env (returned Inputs.saved_path) w in
  answered env Inputs.saved_path w (mkResponse 401 (inl (JObject members))) /\
  lacks_text members = true /\
  fst result = ("", None) /\
  (remove_err env = None -> fs (snd result) !! Inputs.saved_path = None) /\
  typed w' = (typed w ++ [""])%list /\
  last (console w') = Some "You said: ".
Proof.
  assert (answered (Inputs.server Inputs.unauthorized None)
            Inputs.saved_path Inputs.one_recording Inputs.unauthorized) as Ha
    by (repeat split).
  split; [ exact Ha | ]. split; [ reflexivity | ].
  exact (missing_text_gives_empty_transcript
           (Inputs.server Inputs.unauthorized None) Inputs.saved_path
           Inputs.one_recording 401 _ Ha eq_refl).
Defined.

End SessionFacts.

(** ** Process start *)

Module StartupFacts.
Import Startup.

(** C7, at the failing input.  Without the API key variable (unset, or
    set to the empty string) the process ends with status 1, and its
    message is on standard output: standard error stays empty.  The error
    of [run()], next to it, does go to standard error. *)
Theorem missing_key_message_on_stdout (run : RunResult) (err : Error) :
  main ∅ run =
    mkProcess ["Error: OPENAI_API_KEY environment variable not set."] []
      (Some 1) "" /\
  main {[ "OPENAI_API_KEY" := "" ]} run = main ∅ run /\
  stderr (main ∅ run) = [] /\
  stderr (main {[ "OPENAI_API_KEY" := "sk-test" ]}
            (mkRun (run_stdout run) (Some err))) = ["Error: " ++ err].
Proof. repeat split. Qed.

End StartupFacts.

(** ** Key gesture classifier *)

Module ClassifierFacts.
Import GoTime GoTimeFacts Classifier.

Lemma window_fits : minDuration < doublePressTime <= maxDuration.
Proof. unfold minDuration, maxDuration, doublePressTime, Millisecond. lia. Qed.

Lemma classify_spacing (now last : Time) :
  classify now last =
  if spacing now last <? doublePressTime then DoublePress else SinglePress.
Proof. unfold classify. now rewrite (Sub_lt _ _ _ window_fits). Qed.

Lemma handleKeyEvent_trigger (ev : Event) (now : Time) (st : State) :
  Rawcode ev = globeKeyCode ->
  handleKeyEvent ev now st =
  set_lastGlobePressTime now (handle (classify now (lastGlobePressTime st)) st).
Proof.
  intros Hcode. unfold handleKeyEvent, classify. rewrite Hcode, Z.eqb_refl.
  simpl. now destruct (Sub now (lastGlobePressTime st) <? doublePressTime).
Qed.

Lemma is_press_inv (ev : Event) :
  is_press ev = true ->
  (Kind ev = KeyDown \/ Kind ev = KeyHold) /\ Rawcode ev = globeKeyCode.
Proof.
  unfold is_press. destruct (Kind ev); try discriminate;
    intros H%Z.eqb_eq; auto.
Qed.

(** A trigger press always reaches [handleKeyEvent]: the trigger is
    neither the Ctrl key nor the C key. *)
Lemma listen_step_press (st : State) (ev : Event) (now : Time) :
  listening st = true -> is_press ev = true ->
  listen_step st (KeyEvent ev now) =
  set_lastGlobePressTime now
    (handle (classify now (lastGlobePressTime st)) (set_ctrlPressed false st)).
Proof.
  intros Hl [Hk Hcode]%is_press_inv.
  change (lastGlobePressTime st)
    with (lastGlobePressTime (set_ctrlPressed false st)).
  rewrite <- (handleKeyEvent_trigger ev now (set_ctrlPressed false st) Hcode).
  unfold listen_step. rewrite Hl, Hcode. simpl.
  destruct Hk as [-> | ->]; reflexivity.
Qed.

Lemma gestures_handle (g : Gesture) (st : State) :
  gestures (handle g st) = (gestures st ++ [g])%list.
Proof.
  destruct g; simpl; unfold handleDoublePress, handleSinglePress; simpl;
    destruct (dictating st); reflexivity.
Qed.

Lemma handleKeyEvent_other (ev : Event) (now : Time) (st : State) :
  Rawcode ev <> globeKeyCode -> handleKeyEvent ev now st = st.
Proof.
  intros Hne. unfold handleKeyEvent.
  destruct (Rawcode ev =? globeKeyCode) eqn:E; [ apply Z.eqb_eq in E; easy | ].
  reflexivity.
Qed.

Lemma listen_step_other (st : State) (i : Input) :
  input_is_press i = false -> same_dictation st (listen_step st i).
Proof.
  intros Hnp. unfold listen_step, same_dictation.
  destruct (listening st); simpl; [ | easy ].
  destruct i as [ | ev now]; simpl; [ easy | ].
  simpl in Hnp. unfold is_press in Hnp.
  destruct (Kind ev) eqn:Hk; simpl;
    repeat match goal with
           | |- context [if ?c then _ else _] => destruct c eqn:?; simpl
           end; try easy;
    rewrite handleKeyEvent_other by (apply Z.eqb_neq; assumption); easy.
Qed.

Lemma listen_step_stopped (st : State) (i : Input) :
  listening st = false -> listen_step st i = st.
Proof. intros H. unfold listen_step. now rewrite H. Qed.

Lemma listen_stopped (inputs : list Input) (st : State) :
  listening st = false -> listenForKeyboardEvents st inputs = st.
Proof.
  unfold listenForKeyboardEvents.
  induction inputs as [ | i rest IH]; intros H; simpl; [ easy | ].
  rewrite listen_step_stopped by assumption. now apply IH.
Qed.

Lemma listen_others (inputs : list Input) (st : State) :
  press_times inputs = [] ->
  same_dictation st (listenForKeyboardEvents st inputs).
Proof.
  unfold listenForKeyboardEvents. revert st.
  induction inputs as [ | i rest IH]; intros st Hnone; simpl.
  - unfold same_dictation; easy.
  - assert (input_is_press i = false /\ press_times rest = []) as [Hi Hrest].
    { destruct i as [ | ev now]; simpl in *; [ easy | ].
      destruct (is_press ev); [ discriminate | easy ]. }
    destruct (listen_step_other st i Hi) as (Hd & Hl & Hs & Hg).
    destruct (IH (listen_step st i) Hrest) as (Hd' & Hl' & Hs' & Hg').
    unfold same_dictation. repeat split; congruence.
Qed.

Lemma handle_single_spaced (now : Time) (st : State) :
  doublePressTime <= spacing now (lastGlobePressTime st) ->
  classify now (lastGlobePressTime st) = SinglePress.
Proof.
  intros H. rewrite classify_spacing.
  destruct (spacing now (lastGlobePressTime st) <? doublePressTime) eqn:E;
    [ lia | reflexivity ].
Qed.

Lemma handle_double_close (now : Time) (st : State) :
  spacing now (lastGlobePressTime st) < doublePressTime ->
  classify now (lastGlobePressTime st) = DoublePress.
Proof.
  intros H. rewrite classify_spacing.
  destruct (spacing now (lastGlobePressTime st) <? doublePressTime) eqn:E;
    [ reflexivity | lia ].
Qed.

Lemma press_step_fields (st : State) (ev : Event) (now : Time) :
  listening st = true -> is_press ev = true ->
  let st' := listen_step st (KeyEvent ev now) in
  lastGlobePressTime st' = now /\
  gestures st' = (gestures st ++ [classify now (lastGlobePressTime st)])%list /\
  listening st' = true.
Proof.
  intros Hl Hp. simpl. rewrite listen_step_press by assumption.
  repeat split.
  - simpl. now rewrite gestures_handle.
  - destruct (classify now (lastGlobePressTime st)); simpl;
      unfold handleDoublePress, handleSinglePress; simpl;
      destruct (dictating st); simpl; assumption.
Qed.

Lemma spaced_presses_single (inputs : list Input) (st : State) :
  spaced (lastGlobePressTime st) (press_times inputs) ->
  exists k : nat,
    gestures (listenForKeyboardEvents st inputs) =
      (gestures st ++ repeat SinglePress k)%list /\
    (listening (listenForKeyboardEvents st inputs) = true ->
     k = length (press_times inputs)).
Proof.
  revert st. induction inputs as [ | i rest IH]; intros st Hsp.
  - exists 0%nat. simpl. now rewrite app_nil_r.
  - destruct (listening st) eqn:Hl.
    2:{ exists 0%nat. rewrite listen_stopped by assumption.
        simpl. rewrite app_nil_r. split; [ reflexivity | congruence ]. }
    change (listenForKeyboardEvents st (i :: rest))
      with (listenForKeyboardEvents (listen_step st i) rest).
    destruct (input_is_press i) eqn:Hp.
    + destruct i as [ | ev now]; [ discriminate | ]. simpl in Hp, Hsp.
      rewrite Hp in Hsp. destruct Hsp as [Hfar Hrest].
      destruct (press_step_fields st ev now Hl Hp) as (Hlast & Hg & _).
      rewrite (handle_single_spaced now st Hfar) in Hg.
      rewrite <- Hlast in Hrest.
      destruct (IH _ Hrest) as (k & Hk & Hlen).
      exists (S k). split.
      * rewrite Hk, Hg, <- app_assoc. reflexivity.
      * intros H. simpl. rewrite Hp. simpl. f_equal. now apply Hlen.
    + destruct (listen_step_other st i Hp) as (_ & Hlast & _ & Hg).
      assert (press_times (i :: rest) = press_times rest) as Hpt.
      { destruct i as [ | ev now]; simpl in *; [ easy | now rewrite Hp ]. }
      rewrite Hpt in *. rewrite <- Hlast in Hsp.
      destruct (IH _ Hsp) as (k & Hk & Hlen).
      exists k. split; [ now rewrite Hk, Hg | exact Hlen ].
Qed.

Lemma listen_app (st : State) (xs ys : list Input) :
  listenForKeyboardEvents st (xs ++ ys) =
  listenForKeyboardEvents (listenForKeyboardEvents st xs) ys.
Proof. apply fold_left_app. Qed.

Lemma listening_before (inputs : list Input) (st : State) :
  listening (listenForKeyboardEvents st inputs) = true -> listening st = true.
Proof.
  intros H. destruct (listening st) eqn:Hl; [ reflexivity | ].
  rewrite listen_stopped in H by assumption. congruence.
Qed.

(** C1. A double press while idle sets the flag to recording and starts
    exactly one session; a double press while recording changes neither
    the flag nor the number of sessions; a single press while recording
    sets the flag to idle; a single press while idle leaves the flag as it
    is; a single press never starts a session.  Every state is [idle] or
    [recording] below for its own flag. *)
Theorem gesture_transitions (st : State) :
  let idle := set_dictating false st in
  let recording := set_dictating true st in
  (dictating (handleDoublePress idle) = true /\
   sessions (handleDoublePress idle) = S (sessions st)) /\
  (dictating (handleDoublePress recording) = true /\
   sessions (handleDoublePress recording) = sessions st /\
   handleDoublePress recording = note DoublePress recording) /\
  (dictating (handleSinglePress recording) = false /\
   sessions (handleSinglePress recording) = sessions st) /\
  (dictating (handleSinglePress idle) = false /\
   sessions (handleSinglePress idle) = sessions st /\
   handleSinglePress idle = note SinglePress idle).
Proof. simpl. repeat split. Qed.

(** C2. On every down or hold event of the trigger key the listener hands
    the event to the handler chosen from the time elapsed since the last
    recorded press, a double press exactly when the elapsed time is
    strictly below the window of 500 ms and a single press otherwise, and
    records the current time as the last press in both cases.  So presses
    that are each at least the window after the one before are all single
    presses, and a press less than the window after the one before it is a
    double press. *)
Theorem press_classification :
  (forall (st : State) (ev : Event) (now : Time),
      listening st = true -> is_press ev = true ->
      let elapsed := Sub now (lastGlobePressTime st) in
      let st' := listen_step st (KeyEvent ev now) in
      st' = set_lastGlobePressTime now
              (handle (if elapsed <? 500 * Millisecond
                       then DoublePress else SinglePress)
                 (set_ctrlPressed false st)) /\
      lastGlobePressTime st' = now) /\
  (forall (st : State) (inputs : list Input),
      spaced (lastGlobePressTime st) (press_times inputs) ->
      exists k : nat,
        gestures (listenForKeyboardEvents st inputs) =
          (gestures st ++ repeat SinglePress k)%list /\
        (listening (listenForKeyboardEvents st inputs) = true ->
         k = length (press_times inputs))) /\
  (forall (st : State) (ev1 ev2 : Event) (t1 t2 : Time) (between : list Input),
      is_press ev1 = true -> is_press ev2 = true ->
      press_times between = [] ->
      spacing t2 t1 < doublePressTime ->
      let inputs := (KeyEvent ev1 t1 :: between ++ [KeyEvent ev2 t2])%list in
      listening (listenForKeyboardEvents st inputs) = true ->
      gestures (listenForKeyboardEvents st inputs) =
        (gestures st ++ [classify t1 (lastGlobePressTime st); DoublePress])%list).
Proof.
  split; [ | split ].
  - intros st ev now Hl Hp. simpl.
    rewrite listen_step_press by assumption. split; reflexivity.
  - intros st inputs. apply spaced_presses_single.
  - intros st ev1 ev2 t1 t2 between Hp1 Hp2 Hnone Hclose inputs Hl.
    subst inputs.
    change (listenForKeyboardEvents st (KeyEvent ev1 t1 :: between ++ [KeyEvent ev2 t2]))
      with (listenForKeyboardEvents (listen_step st (KeyEvent ev1 t1))
              (between ++ [KeyEvent ev2 t2])) in *.
    rewrite listen_app in *.
    pose proof (listening_before _ _ Hl) as Hl2.
    pose proof (listening_before _ _ Hl2) as Hl1.
    assert (listening st = true) as Hl0.
    { destruct (listening st) eqn:E; [ reflexivity | ].
      rewrite listen_step_stopped in Hl1 by assumption. congruence. }
    destruct (press_step_fields st ev1 t1 Hl0 Hp1) as (Hlast1 & Hg1 & _).
    destruct (listen_others between (listen_step st (KeyEvent ev1 t1)) Hnone)
      as (_ & Hlastb & _ & Hgb).
    set (mid := listenForKeyboardEvents (listen_step st (KeyEvent ev1 t1)) between) in *.
    destruct (press_step_fields mid ev2 t2 Hl2 Hp2) as (_ & Hg2 & _).
    change (listenForKeyboardEvents mid [KeyEvent ev2 t2])
      with (listen_step mid (KeyEvent ev2 t2)).
    rewrite (handle_double_close t2 mid) in Hg2
      by (rewrite Hlastb, Hlast1; exact Hclose).
    rewrite Hg2, Hgb, Hg1, <- app_assoc. reflexivity.
Qed.

Lemma press_classification_witness :
  let st := initial in
  let far :=
    [KeyEvent Inputs.press (Inputs.at_ms 0);
     KeyEvent Inputs.other_key (Inputs.at_ms 100);
     KeyEvent Inputs.hold (Inputs.at_ms 600);
     KeyEvent Inputs.press (Inputs.at_ms 1100)] in
  let close :=
    [KeyEvent Inputs.press (Inputs.at_ms 0);
     KeyEvent Inputs.other_key (Inputs.at_ms 100);
     KeyEvent Inputs.hold (Inputs.at_ms 200)] in
  (listening st = true /\ is_press Inputs.press = true /\
   lastGlobePressTime (listen_step st (KeyEvent Inputs.press (Inputs.at_ms 0)))
     = Inputs.at_ms 0) /\
  (spaced (lastGlobePressTime st) (press_times far) /\
   exists k : nat,
     gestures (listenForKeyboardEvents st far) =
       (gestures st ++ repeat SinglePress k)%list /\
     (listening (listenForKeyboardEvents st far) = true ->
      k = length (press_times far))) /\
  (spacing (Inputs.at_ms 200) (Inputs.at_ms 0) < doublePressTime /\
   listening (listenForKeyboardEvents st close) = true /\
   gestures (listenForKeyboardEvents st close) =
     (gestures st ++
      [classify (Inputs.at_ms 0) (lastGlobePressTime st); DoublePress])%list).
Proof.
  destruct press_classification as (Hstep & Hfar & Hclose).
  assert (spaced (lastGlobePressTime initial)
            [Inputs.at_ms 0; Inputs.at_ms 600; Inputs.at_ms 1100]) as Hsp.
  { vm_compute. repeat split; discriminate. }
  assert (spacing (Inputs.at_ms 200) (Inputs.at_ms 0) < doublePressTime)
    as Hlt by reflexivity.
  split; [ | split ].
  - split; [ reflexivity | ]. split; [ reflexivity | ].
    apply (Hstep initial Inputs.press (Inputs.at_ms 0)); reflexivity.
  - split; [ exact Hsp | ].
    exact (Hfar initial
             [KeyEvent Inputs.press (Inputs.at_ms 0);
              KeyEvent Inputs.other_key (Inputs.at_ms 100);
              KeyEvent Inputs.hold (Inputs.at_ms 600);
              KeyEvent Inputs.press (Inputs.at_ms 1100)] Hsp).
  - split; [ exact Hlt | ]. split; [ reflexivity | ].
    exact (Hclose initial Inputs.press Inputs.hold (Inputs.at_ms 0)
             (Inputs.at_ms 200)
             [KeyEvent Inputs.other_key (Inputs.at_ms 100)]
             eq_refl eq_refl eq_refl Hlt eq_refl).
Defined.

(** C9. The first trigger press after process start is a single press,
    and leaves the flag idle with no session started: the last press time
    starts as the zero time, so the elapsed time is the wall clock reading
    itself (or the largest Duration), which is not below the window once
    the clock reads at least 500 ms past the zero instant. *)
Theorem first_press_is_single
    (before : list Input) (ev : Event) (now : Time) :
  press_times before = [] ->
  is_press ev = true ->
  doublePressTime <= wall now ->
  let st := listenForKeyboardEvents initial before in
  listening st = true ->
  let st' := listen_step st (KeyEvent ev now) in
  doublePressTime <= Sub now (lastGlobePressTime st) /\
  gestures st' = [SinglePress] /\
  dictating st' = false /\
  sessions st' = 0%nat /\
  console st' = console st.
Proof.
  intros Hnone Hp Hwall st Hl st'.
  destruct (listen_others before initial Hnone) as (Hd & Hlast & Hs & Hg).
  fold st in Hd, Hlast, Hs, Hg. simpl in Hd, Hlast, Hs, Hg.
  assert (doublePressTime <= spacing now (lastGlobePressTime st)) as Hfar.
  { rewrite Hlast, spacing_zero. exact Hwall. }
  split.
  { pose proof (Sub_lt now (lastGlobePressTime st) _ window_fits) as E.
    destruct (Sub now (lastGlobePressTime st) <? doublePressTime) eqn:E1; lia. }
  subst st'. rewrite listen_step_press by assumption.
  rewrite (handle_single_spaced now st Hfar).
  cbn [handle set_lastGlobePressTime gestures dictating sessions].
  unfold handleSinglePress.
  cbn [note set_ctrlPressed gestures dictating sessions].
  rewrite Hd. simpl. rewrite Hd, Hg, Hs. repeat split.
Qed.

Lemma first_press_is_single_witness :
  let before :=
    [KeyEvent Inputs.other_key (Inputs.at_ms 0);
     KeyEvent Inputs.ctrl_down (Inputs.at_ms 50)] in
  let now := Inputs.at_ms 100 in
  let st := listenForKeyboardEvents initial before in
  let st' := listen_step st (KeyEvent Inputs.press now) in
  press_times before = [] /\ is_press Inputs.press = true /\
  doublePressTime <= wall now /\ listening st = true /\
  doublePressTime <= Sub now (lastGlobePressTime st) /\
  gestures st' = [SinglePress] /\
  dictating st' = false /\
  sessions st' = 0%nat /\
  console st' = console st.
Proof.
  assert (doublePressTime <= wall (Inputs.at_ms 100)) as Hwall
    by (vm_compute; discriminate).
  split; [ reflexivity | ]. split; [ reflexivity | ].
  split; [ exact Hwall | ]. split; [ reflexivity | ].
  exact (first_press_is_single
           [KeyEvent Inputs.other_key (Inputs.at_ms 0);
            KeyEvent Inputs.ctrl_down (Inputs.at_ms 50)]
           Inputs.press (Inputs.at_ms 100) eq_refl eq_refl Hwall eq_refl).
Defined.

End ClassifierFacts.

(** ** The listener: quit chord, ignored events, sessions started *)

Module ListenerFacts.
Import GoTime GoTimeFacts Classifier ClassifierFacts Listener.

Lemma ignored_step (st : State) (i : Input) :
  is_ignored i = true -> listen_step st i = st.
Proof.
  intros H. unfold listen_step. destruct (listening st); [ | reflexivity ].
  destruct i as [ | ev now]; [ discriminate | ]. simpl in *.
  destruct (Kind ev); try discriminate; [ | reflexivity ].
  apply negb_true_iff in H. now rewrite H.
Qed.

Lemma ignored_run (inputs : list Input) (st : State) :
  forallb is_ignored inputs = true -> listenForKeyboardEvents st inputs = st.
Proof.
  unfold listenForKeyboardEvents.
  induction inputs as [ | i rest IH]; intros H; simpl in *; [ reflexivity | ].
  apply andb_prop in H as [Hi Hrest]. rewrite ignored_step by assumption.
  now apply IH.
Qed.

Lemma handleKeyEvent_keeps_loop (ev : Event) (now : Time) (st : State) :
  ctrlPressed (handleKeyEvent ev now st) = ctrlPressed st /\
  listening (handleKeyEvent ev now st) = listening st /\
  cancelCalled (handleKeyEvent ev now st) = cancelCalled st.
Proof.
  unfold handleKeyEvent, handleDoublePress, handleSinglePress.
  destruct (negb (Rawcode ev =? globeKeyCode)); [ auto | ].
  destruct (Sub now (lastGlobePressTime st) <? doublePressTime); simpl;
    destruct (dictating st); simpl; auto.
Qed.

Lemma single_presses_snoc (gs : list Gesture) (g : Gesture) :
  single_presses (gs ++ [g]) =
  (single_presses gs + match g with SinglePress => 1 | DoublePress => 0 end)%nat.
Proof.
  induction gs as [ | g' rest IH]; simpl.
  - destruct g; reflexivity.
  - destruct g'; rewrite IH; lia.
Qed.

Lemma step_sessions (st : State) (i : Input) :
  (sessions st <= sessions (listen_step st i))%nat /\
  (sessions (listen_step st i) + idle (listen_step st i)
     + single_presses (gestures st)
   <= sessions st + idle st + single_presses (gestures (listen_step st i)))%nat.
Proof.
  destruct (listening st) eqn:Hl.
  2:{ rewrite listen_step_stopped by assumption. lia. }
  destruct (input_is_press i) eqn:Hp.
  - destruct i as [ | ev now]; [ discriminate | ]. simpl in Hp.
    rewrite listen_step_press by assumption.
    destruct (classify now (lastGlobePressTime st)); simpl;
      unfold handleDoublePress, handleSinglePress, idle; simpl;
      destruct (dictating st) eqn:Hd; simpl; rewrite ?Hd, single_presses_snoc;
      lia.
  - destruct (listen_step_other st i Hp) as (Hd & _ & Hs & Hg).
    unfold idle. rewrite Hd, Hs, Hg. lia.
Qed.

(** The quit chord.  Ctrl going down and then C going down, with nothing
    in between but releases of other keys and events that are no key
    events, ends the listener: it prints its line, calls [cancel()] and
    returns, with the flag, the last press time and the sessions as they
    were; whatever arrives afterwards is not looked at. *)
Theorem quit_chord_stops_listener
    (st : State) (k1 k2 : EventKind) (t1 t2 : Time)
    (between more : list Input) :
  listening st = true -> is_down k1 = true -> is_down k2 = true ->
  forallb is_ignored between = true ->
  let st' :=
    listenForKeyboardEvents st
      (KeyEvent (mkEvent k1 ctrlRawcode) t1
         :: between ++ [KeyEvent (mkEvent k2 cRawcode) t2])%list in
  listening st' = false /\ cancelCalled st' = true /\
  console st' = (console st ++ ["User pressed Ctrl+C"])%list /\
  same_dictation st st' /\
  listenForKeyboardEvents st' more = st'.
Proof.
  intros Hl Hk1 Hk2 Hign st'.
  assert (st' = stop_listening true
                  (println "User pressed Ctrl+C" (set_ctrlPressed true st)))
    as ->.
  { subst st'.
    change (listenForKeyboardEvents st
              (KeyEvent (mkEvent k1 ctrlRawcode) t1
                 :: between ++ [KeyEvent (mkEvent k2 cRawcode) t2]))
      with (listenForKeyboardEvents
              (listen_step st (KeyEvent (mkEvent k1 ctrlRawcode) t1))
              (between ++ [KeyEvent (mkEvent k2 cRawcode) t2])).
    assert (listen_step st (KeyEvent (mkEvent k1 ctrlRawcode) t1) =
            set_ctrlPressed true st) as ->.
    { unfold listen_step. rewrite Hl. destruct k1; try discriminate; reflexivity. }
    rewrite listen_app, (ignored_run between _ Hign).
    unfold listenForKeyboardEvents, listen_step. simpl. rewrite Hl.
    destruct k2; try discriminate; reflexivity. }
  repeat split.
  - simpl. apply orb_true_r.
  - now apply listen_stopped.
Qed.

(** Ctrl must still count as held.  After the release of Ctrl, or after any
    other key has gone down (the trigger key included), a C going down does
    not end the listener and [cancel()] is not called. *)
Theorem chord_needs_ctrl_held
    (st : State) (i : Input) (ev : Event) (t : Time) :
  listening st = true -> breaks_chord st i = true ->
  Rawcode ev = cRawcode ->
  let st1 := listen_step st i in
  let st2 := listen_step st1 (KeyEvent ev t) in
  ctrlPressed st1 = false /\ listening st2 = true /\
  cancelCalled st2 = cancelCalled st.
Proof.
  intros Hl Hb Hc st1 st2.
  assert (ctrlPressed st1 = false /\ listening st1 = true /\
          cancelCalled st1 = cancelCalled st) as (Hc1 & Hl1 & Hcc1).
  { subst st1. unfold listen_step. rewrite Hl.
    destruct i as [ | ev1 t1]; [ discriminate | ]. simpl in *.
    destruct (Kind ev1); try discriminate.
    - apply andb_prop in Hb as [Hb1 Hb2].
      apply negb_true_iff in Hb1, Hb2. rewrite Hb1, Hb2.
      destruct (handleKeyEvent_keeps_loop ev1 t1 (set_ctrlPressed false st))
        as (-> & -> & ->). auto.
    - apply andb_prop in Hb as [Hb1 Hb2].
      apply negb_true_iff in Hb1, Hb2. rewrite Hb1, Hb2.
      destruct (handleKeyEvent_keeps_loop ev1 t1 (set_ctrlPressed false st))
        as (-> & -> & ->). auto.
    - rewrite Hb. auto. }
  split; [ exact Hc1 | ].
  subst st2. unfold listen_step. rewrite Hl1, Hc, Hc1. simpl.
  destruct (Kind ev); simpl; auto;
    destruct (handleKeyEvent_keeps_loop ev t (set_ctrlPressed false st1))
      as (_ & -> & ->); auto.
Qed.

(** Events the listener does not act on.  Releases of keys other than Ctrl
    (the release of the trigger key included) and events that are no key
    events leave the whole state as it is: they are no presses, they do not
    touch the last press time, and they keep Ctrl held. *)
Theorem ignored_events_change_nothing (st : State) (inputs : list Input) :
  forallb is_ignored inputs = true ->
  listenForKeyboardEvents st inputs = st /\ press_times inputs = [].
Proof.
  intros H. split; [ now apply ignored_run | ].
  induction inputs as [ | i rest IH]; [ reflexivity | ].
  simpl in H. apply andb_prop in H as [Hi Hrest].
  destruct i as [ | ev now]; [ discriminate | ]. simpl in *.
  unfold is_press. destruct (Kind ev); try discriminate; now apply IH.
Qed.

(** Sessions started by the listener on its own.  Over any inputs the
    number of sessions never goes down, and every session started beyond
    the first one follows a single press: the sessions plus one for an idle
    flag grow by at most the number of single presses handled. *)
Theorem sessions_follow_single_presses (st : State) (inputs : list Input) :
  let st' := listenForKeyboardEvents st inputs in
  (sessions st <= sessions st')%nat /\
  (sessions st' + idle st' + single_presses (gestures st)
   <= sessions st + idle st + single_presses (gestures st'))%nat.
Proof.
  unfold listenForKeyboardEvents. revert st.
  induction inputs as [ | i rest IH]; intros st; simpl.
  - lia.
  - destruct (step_sessions st i) as [H1 H2].
    destruct (IH (listen_step st i)) as [H3 H4]. simpl in H3, H4. lia.
Qed.

(** Handler calls and the last press time.  While the listener runs, one
    handler is called for every down or hold event of the trigger key and
    for nothing else, and the last press time is the time of the latest
    such event (the old one when there was none). *)
Theorem presses_are_counted (st : State) (inputs : list Input) :
  let st' := listenForKeyboardEvents st inputs in
  listening st' = true ->
  length (gestures st') = (length (gestures st) + length (press_times inputs))%nat /\
  lastGlobePressTime st' =
    default (lastGlobePressTime st) (last (press_times inputs)).
Proof.
  unfold listenForKeyboardEvents. revert st.
  induction inputs as [ | i rest IH]; intros st; simpl; intros Hl.
  - split; [ lia | reflexivity ].
  - pose proof (listening_before rest _ Hl) as Hl1.
    assert (listening st = true) as Hl0.
    { destruct (listening st) eqn:E; [ reflexivity | ].
      rewrite listen_step_stopped in Hl1 by assumption. congruence. }
    destruct (IH (listen_step st i) Hl) as [IHg IHt].
    destruct (input_is_press i) eqn:Hp.
    + destruct i as [ | ev now]; [ discriminate | ]. simpl in Hp. rewrite Hp.
      destruct (press_step_fields st ev now Hl0 Hp) as (Hlast & Hg & _).
      rewrite IHg, IHt, Hg, Hlast, length_app. simpl. split; [ lia | ].
      rewrite last_cons. destruct (last (press_times rest)); reflexivity.
    + destruct (listen_step_other st i Hp) as (_ & Hlast & _ & Hg).
      assert (press_times (i :: rest) = press_times rest) as Hpt.
      { destruct i as [ | ev now]; simpl in *; [ easy | now rewrite Hp ]. }
      simpl in Hpt. rewrite Hpt, IHg, IHt, Hg, Hlast. auto.
Qed.

Lemma quit_chord_stops_listener_witness :
  let between := [KeyEvent (mkEvent KeyUp 42) (Inputs.at_ms 10)] in
  let more := [KeyEvent Inputs.press (Inputs.at_ms 20)] in
  let st' :=
    listenForKeyboardEvents initial
      (KeyEvent (mkEvent KeyDown ctrlRawcode) (Inputs.at_ms 0)
         :: between ++ [KeyEvent (mkEvent KeyHold cRawcode) (Inputs.at_ms 15)])%list in
  listening initial = true /\ is_down KeyDown = true /\
  is_down KeyHold = true /\ forallb is_ignored between = true /\
  listening st' = false /\ cancelCalled st' = true /\
  console st' = (console initial ++ ["User pressed Ctrl+C"])%list /\
  same_dictation initial st' /\
  listenForKeyboardEvents st' more = st'.
Proof.
  do 4 (split; [ reflexivity | ]).
  exact (quit_chord_stops_listener initial KeyDown KeyHold
           (Inputs.at_ms 0) (Inputs.at_ms 15)
           [KeyEvent (mkEvent KeyUp 42) (Inputs.at_ms 10)]
           [KeyEvent Inputs.press (Inputs.at_ms 20)]
           eq_refl eq_refl eq_refl eq_refl).
Defined.

Lemma chord_needs_ctrl_held_witness :
  let st := set_ctrlPressed true initial in
  let i := KeyEvent Inputs.press (Inputs.at_ms 0) in
  let ev := mkEvent KeyDown 8 in
  let st1 := listen_step st i in
  let st2 := listen_step st1 (KeyEvent ev (Inputs.at_ms 10)) in
  listening st = true /\ breaks_chord st i = true /\ Rawcode ev = cRawcode /\
  ctrlPressed st1 = false /\ listening st2 = true /\
  cancelCalled st2 = cancelCalled st.
Proof.
  do 3 (split; [ reflexivity | ]).
  exact (chord_needs_ctrl_held (set_ctrlPressed true initial)
           (KeyEvent Inputs.press (Inputs.at_ms 0)) (mkEvent KeyDown 8)
           (Inputs.at_ms 10) eq_refl eq_refl eq_refl).
Defined.

Lemma ignored_events_change_nothing_witness :
  let inputs :=
    [KeyEvent (mkEvent KeyUp 179) (Inputs.at_ms 0);
     KeyEvent (mkEvent OtherKind 0) (Inputs.at_ms 5);
     KeyEvent (mkEvent KeyUp 8) (Inputs.at_ms 9)] in
  forallb is_ignored inputs = true /\
  listenForKeyboardEvents initial inputs = initial /\ press_times inputs = [].
Proof.
  split; [ reflexivity | ].
  exact (ignored_events_change_nothing initial
           [KeyEvent (mkEvent KeyUp 179) (Inputs.at_ms 0);
            KeyEvent (mkEvent OtherKind 0) (Inputs.at_ms 5);
            KeyEvent (mkEvent KeyUp 8) (Inputs.at_ms 9)] eq_refl).
Defined.

Lemma presses_are_counted_witness :
  let inputs :=
    [KeyEvent Inputs.press (Inputs.at_ms 0);
     KeyEvent Inputs.other_key (Inputs.at_ms 100);
     KeyEvent Inputs.hold (Inputs.at_ms 200)] in
  let st' := listenForKeyboardEvents initial inputs in
  listening st' = true /\
  length (gestures st') =
    (length (gestures initial) + length (press_times inputs))%nat /\
  lastGlobePressTime st' =
    default (lastGlobePressTime initial) (last (press_times inputs)).
Proof.
  split; [ reflexivity | ].
  exact (presses_are_counted initial
           [KeyEvent Inputs.press (Inputs.at_ms 0);
            KeyEvent Inputs.other_key (Inputs.at_ms 100);
            KeyEvent Inputs.hold (Inputs.at_ms 200)] eq_refl).
Defined.

End ListenerFacts.

(** ** The finalize step: files, sample count, symmetry *)

Module FinalizeFacts.
Import Float32 Float32Facts Audio AudioFacts.

Lemma int16_range (v : Z) : - 2 ^ 15 <= int16 v < 2 ^ 15.
Proof.
  unfold int16.
  pose proof (Z.mod_pos_bound (v + 2 ^ 15) (2 ^ 16) ltac:(lia)). lia.
Qed.

Lemma binary_round_aux_negb (s : bool) (m e : Z) (l : location) :
  binary_round_aux prec emax (negb s) m e l =
  SFopp (binary_round_aux prec emax s m e l).
Proof.
  unfold binary_round_aux.
  destruct (shr_fexp prec emax m e l) as [mrs1 e1].
  destruct (shr_fexp prec emax _ e1 loc_Exact) as [mrs2 e2].
  destruct (shr_m mrs2); try reflexivity.
  destruct (e2 <=? emax - prec); reflexivity.
Qed.

Lemma mul_opp (x : float32) :
  in_unit_range x = true ->
  mul (SFopp x) (of_Z 32767) = SFopp (mul x (of_Z 32767)).
Proof.
  intros H. rewrite of_Z_32767.
  destruct x as [s | s | | s m e]; try discriminate.
  - destruct s; reflexivity.
  - unfold mul. simpl SFopp at 1. unfold SFmul.
    rewrite !xorb_false_r. apply binary_round_aux_negb.
Qed.

Lemma truncate_opp (x : float32) (z : Z) :
  truncate x = Some z -> truncate (SFopp x) = Some (- z).
Proof.
  destruct x as [s | s | | s m e]; simpl; try discriminate.
  - intros [= <-]. reflexivity.
  - intros [= <-]. destruct s; simpl; f_equal; lia.
Qed.

Lemma in_unit_range_opp (x : float32) :
  in_unit_range (SFopp x) = in_unit_range x.
Proof. destruct x; reflexivity. Qed.

Lemma to_int_small (unrepresentable : float32 -> Z) (x : float32) (z : Z) :
  truncate x = Some z -> - 32767 <= z <= 32767 ->
  to_int unrepresentable x = z.
Proof.
  intros Hz Hb. unfold to_int. rewrite Hz.
  assert ((minInt <=? z) && (z <=? maxInt) = true) as ->.
  { unfold minInt, maxInt. apply andb_true_intro.
    split; apply Z.leb_le; lia. }
  reflexivity.
Qed.

Lemma saveAudioToFile_other_paths
    (unrepresentable : float32 -> Z) (env : SaveEnv)
    (samples : list float32) (fs : gmap string WavFile) (p : string) :
  Abs env (fileName env) <> inl p ->
  snd (saveAudioToFile unrepresentable env samples fs) !! p = fs !! p.
Proof.
  unfold saveAudioToFile. intros Hp.
  destruct (Abs env (fileName env)) as [fullPath | err]; [ | reflexivity ].
  destruct (create_err env); [ reflexivity | ].
  destruct (write_err env); simpl; apply lookup_insert_ne; congruence.
Qed.

(** Files.  Whatever the outcome, [saveAudioToFile] changes no path other
    than the absolute path of its file name; when that path cannot be
    resolved or the file cannot be created it changes nothing at all, and
    every failure returns the empty path. *)
Theorem saveAudioToFile_touches_one_path
    (unrepresentable : float32 -> Z) (env : SaveEnv)
    (samples : list float32) (fs : gmap string WavFile) :
  let result := saveAudioToFile unrepresentable env samples fs in
  (forall p : string,
      Abs env (fileName env) <> inl p -> snd result !! p = fs !! p) /\
  (snd (fst result) <> None -> fst (fst result) = "") /\
  ((forall p : string, Abs env (fileName env) <> inl p) \/
   create_err env <> None ->
   snd result = fs /\ snd (fst result) <> None).
Proof.
  unfold saveAudioToFile, failed, returned.
  destruct (Abs env (fileName env)) as [fullPath | err] eqn:Ha.
  - assert (forall p : string,
               @inl string Error fullPath <> inl p ->
               forall file : WavFile, <[fullPath := file]> fs !! p = fs !! p)
      as Hother.
    { intros p Hp file. apply lookup_insert_ne. congruence. }
    destruct (create_err env) as [err | ] eqn:Hc;
      [ | destruct (write_err env) as [err | ] ]; simpl.
    + split; [ reflexivity | ]. split; [ reflexivity | ].
      intros _. split; [ reflexivity | discriminate ].
    + split; [ intros p Hp; now apply Hother | ]. split; [ reflexivity | ].
      intros [H | H]; [ now destruct (H fullPath) | congruence ].
    + split; [ intros p Hp; now apply Hother | ].
      split; [ intros H; now destruct H | ].
      intros [H | H]; [ now destruct (H fullPath) | congruence ].
  - simpl. split; [ reflexivity | ]. split; [ reflexivity | ].
    intros _. split; [ reflexivity | discriminate ].
Qed.

(** Samples of any value.  The file holds one stored sample per input
    sample, in order, and every stored sample is a 16-bit value, also for
    samples outside [-1, 1], infinities and NaN, whatever the
    implementation makes of a conversion that does not fit. *)
Theorem stored_samples_fit_16_bits
    (unrepresentable : float32 -> Z) (samples : list float32) :
  let file := encode (intBuffer unrepresentable samples) in
  length (wavData file) = length samples /\
  Forall (fun v => - 32768 <= v <= 32767) (wavData file) /\
  (forall i : nat,
      wavData file !! i =
      (fun sample => int16 (to_int unrepresentable (mul sample (of_Z 32767))))
        <$> samples !! i).
Proof.
  simpl. unfold intBuffer. split; [ | split ].
  - now rewrite !length_map.
  - rewrite List.map_map.
    induction samples as [ | x rest IH]; cbn [List.map]; constructor;
      [ | exact IH ].
    pose proof (int16_range (to_int unrepresentable (mul x (of_Z 32767)))).
    lia.
  - intros i. rewrite List.map_map. apply list_lookup_fmap.
Qed.

(** Symmetry.  For samples in [-1, 1], negating a sample negates its stored
    value: the conversion discards the fraction on both sides of zero
    alike. *)
Theorem negated_sample_negated_value
    (unrepresentable : float32 -> Z) (samples : list float32) :
  forallb in_unit_range samples = true ->
  intBuffer unrepresentable (List.map SFopp samples) =
  List.map Z.opp (intBuffer unrepresentable samples).
Proof.
  unfold intBuffer.
  induction samples as [ | x rest IH]; cbn [List.map forallb]; intros H.
  - reflexivity.
  - apply andb_prop in H as [Hx Hrest]. rewrite (IH Hrest). f_equal.
    destruct (truncate_magnitude 32767 _ ltac:(lia) (mul_unit_range x Hx))
      as (z & Hz & Hb).
    rewrite (to_int_small unrepresentable _ z Hz Hb).
    rewrite (mul_opp x Hx).
    apply to_int_small; [ now apply truncate_opp | lia ].
Qed.

Lemma saveAudioToFile_touches_one_path_witness :
  let fs : gmap string WavFile := {[ "/tmp/other.wav" := encode [1] ]} in
  let result :=
    saveAudioToFile Inputs.unrepresentable Inputs.save_ok Inputs.block fs in
  Abs Inputs.save_ok (fileName Inputs.save_ok) <> inl "/tmp/other.wav" /\
  snd result !! "/tmp/other.wav" = fs !! "/tmp/other.wav".
Proof.
  assert (Abs Inputs.save_ok (fileName Inputs.save_ok) <> inl "/tmp/other.wav")
    as Hne by (vm_compute; discriminate).
  split; [ exact Hne | ].
  exact (proj1 (saveAudioToFile_touches_one_path Inputs.unrepresentable
                  Inputs.save_ok Inputs.block
                  {[ "/tmp/other.wav" := encode [1] ]})
           "/tmp/other.wav" Hne).
Defined.

Lemma negated_sample_negated_value_witness :
  forallb in_unit_range Inputs.block = true /\
  intBuffer Inputs.unrepresentable (List.map SFopp Inputs.block) =
  List.map Z.opp (intBuffer Inputs.unrepresentable Inputs.block).
Proof.
  split; [ reflexivity | ].
  exact (negated_sample_negated_value Inputs.unrepresentable Inputs.block
           eq_refl).
Defined.

End FinalizeFacts.

(** ** A recording attempt: order of the stream calls, samples, files *)

Module RecordingFacts.
Import Float32 Audio AudioFacts Recorder RecorderFacts Protocol.

Ltac settle :=
  simpl; repeat split; auto; try congruence; try discriminate.

Lemma blocks_read_S (env : Env) (n : nat) :
  blocks_read env (S n) =
  (blocks_read env n ++
   match reads env n with inr block => block | inl _ => [] end)%list.
Proof.
  unfold blocks_read. rewrite seq_S, flat_map_app. simpl.
  now rewrite app_nil_r.
Qed.

Lemma running_calls_read (st : State) :
  (running_calls st ++ [SRead])%list = running_calls (call SRead st).
Proof.
  unfold running_calls. simpl. do 2 f_equal. symmetry.
  apply (repeat_cons (readCount st) SRead).
Qed.

Lemma saveAudioToFile_returned (unrepresentable : float32 -> Z) (env : SaveEnv)
    (samples : list float32) (fs fs' : gmap string WavFile) (path : string) :
  saveAudioToFile unrepresentable env samples fs = ((path, None), fs') ->
  Abs env (fileName env) = inl path /\
  fs' = <[path := encode (intBuffer unrepresentable samples)]> fs.
Proof.
  unfold saveAudioToFile, failed, returned.
  destruct (Abs env (fileName env)) as [p | err]; [ | discriminate ].
  destruct (create_err env); [ discriminate | ].
  destruct (write_err env); [ discriminate | ].
  intros [= -> <-]. auto.
Qed.

Section Attempt.
Variable unrepresentable : float32 -> Z.
Variable env : Env.
Variable fs0 : gmap string WavFile.

Abbreviation step := (Recorder.step unrepresentable env).
Abbreviation run := (Recorder.run unrepresentable env).

Lemma step_in_read_order (st : State) (a : Action) :
  in_read_order env st -> in_read_order env (step st a).
Proof.
  unfold in_read_order. intros [Hs Hn].
  destruct a as [ | | | b | ]; simpl.
  - auto.
  - destruct (dictating st); simpl; auto.
  - destruct (dictating st); simpl; auto.
  - unfold main_step.
    destruct (mainPC st);
      [ destruct (open_err env) | destruct (start_err env)
      | destruct b; [ destruct (cancelled st) | destruct (recordingDone st) ]
      | | destruct (stop_err env)
      | destruct (Abs (save env) (fileName (save env)));
          [ destruct (create_err (save env)) | ]
      | destruct (write_err (save env)) | ]; simpl; auto;
      split; auto; discriminate.
  - unfold loop_step.
    destruct (loopPC st) eqn:Hl;
      [ | destruct (dictating st) | destruct (cancelled st)
        | destruct (reads env (readCount st)) as [err | block] eqn:Hr | | ];
      simpl; rewrite ?Hl; auto; try (split; [ auto | discriminate ]).
    + rewrite blocks_read_S, Hr, app_nil_r. exact Hs.
    + rewrite blocks_read_S, Hr, Hs. reflexivity.
Qed.

Lemma step_files_kept (st : State) (a : Action) :
  files_kept unrepresentable env fs0 st ->
  files_kept unrepresentable env fs0 (step st a).
Proof.
  unfold files_kept, stream_failed. intros H.
  destruct a as [ | | | b | ]; simpl.
  - exact H.
  - destruct (dictating st); simpl; exact H.
  - destruct (dictating st); simpl; exact H.
  - unfold main_step. destruct (mainPC st) eqn:Hm.
    + destruct (open_err env); simpl; eauto 6.
    + destruct (start_err env); simpl; eauto 6.
    + destruct b; [ destruct (cancelled st) | destruct (recordingDone st) ];
        simpl; rewrite ?Hm; auto.
    + simpl. auto.
    + destruct (stop_err env); simpl; eauto 7.
    + destruct (Abs (save env) (fileName (save env))) as [p | err] eqn:Ha;
        [ destruct (create_err (save env)) as [err | ] eqn:Hc | ]; simpl.
      * right. exists []. unfold saveAudioToFile. now rewrite Ha, Hc, H.
      * rewrite H. auto.
      * right. exists []. unfold saveAudioToFile. now rewrite Ha, H.
    + destruct H as (Ha & Hc & Hf).
      destruct (write_err (save env)) as [err | ] eqn:Hw; simpl; right.
      * exists []. unfold saveAudioToFile. now rewrite Ha, Hc, Hw, Hf.
      * exists samples. unfold saveAudioToFile.
        now rewrite Ha, Hc, Hw, Hf, insert_insert_eq.
    + rewrite Hm. exact H.
  - unfold loop_step.
    destruct (loopPC st);
      [ | destruct (dictating st) | destruct (cancelled st)
        | destruct (reads env (readCount st)) | | ]; simpl; exact H.
Qed.

Lemma step_orderly (st : State) (a : Action) :
  negb (is_cancel a) = true ->
  orderly unrepresentable env fs0 st ->
  orderly unrepresentable env fs0 (step st a).
Proof.
  unfold orderly. intros Ha (Hc & H).
  destruct a as [ | | | b | ]; simpl in *; try discriminate.
  - destruct (dictating st) eqn:Hd; simpl; [ | auto ].
    split; [ exact Hc | ]. destruct (mainPC st); exact H.
  - destruct (dictating st) eqn:Hd; simpl; [ auto | ].
    split; [ exact Hc | ]. destruct (mainPC st); exact H.
  - unfold main_step. destruct (mainPC st) eqn:Hm.
    + destruct H as (Hs & Hl & Hn & Hrd & Hf).
      destruct (open_err env); simpl; rewrite ?Hs; settle.
    + destruct H as (Hs & Hl & Hn & Hrd & Hf).
      destruct (start_err env); simpl; unfold running_calls;
        simpl; rewrite ?Hs, ?Hn, ?Hrd; settle.
    + destruct H as (Hs & Hl & Hd & Hf).
      destruct b; [ rewrite Hc | destruct (recordingDone st) eqn:Hrd ]; simpl;
        rewrite ?Hm; settle.
    + destruct H as (Hs & Hl & Hf). settle.
    + destruct H as (Hs & Hl & Hf).
      destruct (stop_err env); simpl; unfold running_calls in *; simpl;
        rewrite ?Hs; settle.
    + destruct H as (Hs & Hl & Hf).
      destruct (Abs (save env) (fileName (save env))) as [p | err] eqn:Habs;
        [ destruct (create_err (save env)) as [err | ] eqn:Hcr | ];
        simpl; rewrite ?Hf; settle.
    + destruct H as (Hs & Hl & Hsamples & Habs & Hcr & Hf).
      destruct (write_err (save env)) as [err | ] eqn:Hw; simpl; [ settle | ].
      split; [ exact Hc | ]. split; [ auto | ]. intros _.
      split; [ | split; [ exact Hl | ] ].
      * unfold running_calls in *. simpl in *. rewrite Hs.
        simpl. now rewrite <- app_assoc.
      * unfold saveAudioToFile.
        now rewrite Habs, Hcr, Hw, Hf, insert_insert_eq, Hsamples.
    + rewrite Hm. auto.
  - unfold loop_step.
    destruct (loopPC st) eqn:Hl.
    + rewrite Hl. auto.
    + destruct (dictating st) eqn:Hd; simpl; (split; [ exact Hc | ]);
        destruct (mainPC st); rewrite ?Hd;
        intuition (try congruence; try discriminate).
    + rewrite Hc. simpl. split; [ exact Hc | ].
      destruct (mainPC st); intuition (try congruence; try discriminate).
    + assert (mainPC st = MWait) as Hm.
      { destruct (mainPC st) as [ | | | | | | p l | r]; intuition congruence. }
      rewrite Hm in H. destruct H as (Hs & _ & Hd & Hf).
      assert ((stream st ++ [SRead])%list = running_calls (call SRead st))
        as Hcalls by (rewrite Hs; apply running_calls_read).
      destruct (reads env (readCount st)) as [err | block]; simpl;
        rewrite Hm; (split; [ exact Hc | ]);
        (split; [ exact Hcalls | settle ]);
        intros Hrd; specialize (Hd Hrd); discriminate.
    + rewrite Hl. auto.
    + rewrite Hl. auto.
Qed.

Lemma start_orderly : orderly unrepresentable env fs0 (start fs0).
Proof. unfold orderly. settle. Qed.

Lemma run_orderly (schedule : list Action) :
  forallb (fun a => negb (is_cancel a)) schedule = true ->
  orderly unrepresentable env fs0 (run (start fs0) schedule).
Proof.
  intros Hno.
  apply (run_invariant unrepresentable env _ (fun a => negb (is_cancel a)));
    [ apply step_orderly | exact Hno | apply start_orderly ].
Qed.

Lemma run_in_read_order (st : State) (schedule : list Action) :
  in_read_order env st -> in_read_order env (run st schedule).
Proof.
  intros H.
  apply (run_invariant unrepresentable env _ (fun _ => true)); auto.
  - intros s a _. apply step_in_read_order.
  - apply forallb_all.
Qed.

Lemma run_files_kept (schedule : list Action) :
  files_kept unrepresentable env fs0 (run (start fs0) schedule).
Proof.
  apply (run_invariant unrepresentable env _ (fun _ => true)).
  - intros s a _. apply step_files_kept.
  - apply forallb_all.
  - reflexivity.
Qed.

(** The goroutine never writes the flag. *)
Lemma loop_keeps_flag (st : State) :
  dictating (loop_step env st) = dictating st.
Proof.
  unfold loop_step.
  destruct (loopPC st);
    [ | destruct (dictating st) eqn:Hd | destruct (cancelled st)
      | destruct (reads env (readCount st)) | | ];
    simpl; rewrite ?Hd; reflexivity.
Qed.

(** The body writes the flag at line 265 only. *)
Lemma main_keeps_flag (b : Branch) (st : State) :
  dictating (main_step unrepresentable env b st) =
  match mainPC st with MClear => false | _ => dictating st end.
Proof.
  unfold main_step.
  destruct (mainPC st);
    [ destruct (open_err env) | destruct (start_err env)
    | destruct b; [ destruct (cancelled st) | destruct (recordingDone st) ]
    | | destruct (stop_err env)
    | destruct (Abs (save env) (fileName (save env)));
        [ destruct (create_err (save env)) | ]
    | destruct (write_err (save env)) | ]; reflexivity.
Qed.

Lemma step_keeps_idle (st : State) (a : Action) :
  negb (is_double a) = true ->
  dictating st = false -> dictating (step st a) = false.
Proof.
  intros Ha Hd. destruct a as [ | | | b | ]; simpl in *; try discriminate.
  - exact Hd.
  - now rewrite Hd.
  - rewrite main_keeps_flag. now destruct (mainPC st).
  - now rewrite loop_keeps_flag.
Qed.

End Attempt.

(** Normal stop.  On an attempt during which the lifecycle signal does not
    fire, whatever presses of the trigger key are handled meanwhile, when
    [recordAudio] has returned a path: the stream was opened, started, read
    once per block, stopped and closed, in this order, so no read follows
    the stop; the goroutine had left its loop before the body went on; and
    the attempt has written the file at the path and no other: it is the
    16-bit mono file at 44100 Hz with one value for every sample of the
    blocks read, in their order. *)
Theorem normal_stop_is_orderly
    (unrepresentable : float32 -> Z) (env : Env) (fs0 : gmap string WavFile)
    (schedule : list Action) (path : string) :
  forallb (fun a => negb (is_cancel a)) schedule = true ->
  let st := run unrepresentable env (start fs0) schedule in
  mainPC st = MReturned (path, None) ->
  stream st =
    ([SOpen; SStart] ++ repeat SRead (readCount st) ++ [SStop; SClose])%list /\
  loopPC st = LFinished /\
  allSamples st = blocks_read env (readCount st) /\
  fs st =
    <[path :=
        mkWav 44100 16 1 1
          (List.map
             (fun sample =>
                int16 (to_int unrepresentable (mul sample (of_Z 32767))))
             (blocks_read env (readCount st)))]> fs0.
Proof.
  intros Hno st Hret.
  pose proof (run_orderly unrepresentable env fs0 schedule Hno) as Hord.
  fold st in Hord. unfold orderly in Hord. rewrite Hret in Hord.
  destruct Hord as (_ & _ & Hord).
  destruct (Hord eq_refl) as (Hs & Hl & Hsave).
  assert (in_read_order env st) as [Hsamples _].
  { apply run_in_read_order. split; reflexivity. }
  symmetry in Hsave. apply saveAudioToFile_returned in Hsave as [_ Hfs].
  split; [ | split; [ exact Hl | split ] ].
  - rewrite Hs. unfold running_calls. now rewrite <- app_assoc.
  - exact Hsamples.
  - rewrite Hfs, Hsamples, recording_encoded. reflexivity.
Qed.


(** Files.  Under every interleaving an attempt changes no file before its
    body reaches [os.Create] in the finalize step; when it returned a
    stream error (open, start or stop) it has changed none; and the only
    path it ever changes is the absolute path of its file name. *)
Theorem attempt_touches_one_path
    (unrepresentable : float32 -> Z) (env : Env) (fs0 : gmap string WavFile)
    (schedule : list Action) :
  let st := run unrepresentable env (start fs0) schedule in
  (before_create st = true -> fs st = fs0) /\
  (forall r : GoResult,
      mainPC st = MReturned r -> stream_failed r -> fs st = fs0) /\
  (forall p : string,
      Abs (save env) (fileName (save env)) <> inl p -> fs st !! p = fs0 !! p).
Proof.
  intros st.
  pose proof (run_files_kept unrepresentable env fs0 schedule) as H.
  fold st in H. unfold files_kept in H. unfold before_create.
  destruct (mainPC st) as [ | | | | | | path samples | r] eqn:Hm;
    try (split; [ auto | split; [ discriminate | intros; now rewrite H ] ]).
  - destruct H as (Ha & _ & Hf).
    split; [ discriminate | ]. split; [ discriminate | ].
    intros p Hp. rewrite Hf. apply lookup_insert_ne. congruence.
  - split; [ discriminate | ]. split.
    + intros r' [= <-] (err & Hfail).
      destruct H as [[_ H] | (samples & H)]; [ exact H | ].
      unfold saveAudioToFile, failed, returned, wrap in H.
      destruct (Abs (save env) (fileName (save env)));
        [ destruct (create_err (save env)); [ | destruct (write_err (save env)) ] | ];
        destruct Hfail as [-> | [-> | ->]]; inversion H; congruence.
    + intros p Hp. destruct H as [[_ H] | (samples & H)]; [ now rewrite H | ].
      pose proof (FinalizeFacts.saveAudioToFile_other_paths
                    unrepresentable (save env) samples fs0 p Hp) as Hother.
      now rewrite <- H in Hother.
Qed.

(** The flag.  [recordAudio] writes the flag at line 265 only, and clears
    it there: the goroutine never writes it, and no other step of the body
    does.  So on an attempt during which the listener handles no double
    press, a flag once idle stays idle, and when [recordAudio] has returned
    the flag is idle unless it returned the failure to open or to start the
    stream.  A double press handled while the flag is idle sets it,
    wherever the body stands. *)
Theorem attempt_only_clears_flag
    (unrepresentable : float32 -> Z) (env : Env) (fs0 : gmap string WavFile)
    (st : State) (b : Branch) (schedule : list Action) :
  dictating (loop_step env st) = dictating st /\
  dictating (main_step unrepresentable env b st) =
    match mainPC st with MClear => false | _ => dictating st end /\
  (forallb (fun a => negb (is_double a)) schedule = true ->
   (dictating st = false ->
    dictating (run unrepresentable env st schedule) = false) /\
   (forall r : GoResult,
       mainPC (run unrepresentable env (start fs0) schedule) = MReturned r ->
       dictating (run unrepresentable env (start fs0) schedule) = false \/
       stream_not_running r)) /\
  (dictating st = false ->
   let st' := step unrepresentable env st DoublePress in
   dictating st' = true /\ mainPC st' = mainPC st /\
   spawned st' = S (spawned st)).
Proof.
  split; [ apply loop_keeps_flag | ].
  split; [ apply main_keeps_flag | ].
  split.
  - intros Hno. split.
    + intros Hd.
      apply (run_invariant unrepresentable env
               (fun s => dictating s = false)
               (fun a => negb (is_double a))); auto.
      intros s a. apply step_keeps_idle.
    + intros r. now apply flag_cleared_at_return.
  - intros Hd. simpl. rewrite Hd. repeat split.
Qed.

(** The stop gesture.  With the flag idle and the body waiting, a goroutine
    at its loop condition leaves the loop at its next step and closes
    [recordingDone]; the body then stops the stream, writes the samples
    collected, one 16-bit value for each and in their order, and returns
    the path.  A goroutine that was in a read first appends the block it
    gets. *)
Theorem stop_gesture_finalizes
    (unrepresentable : float32 -> Z) (env : Env) (st : State)
    (fullPath : string) (block : list float32) :
  mainPC st = MWait -> dictating st = false ->
  stop_err env = None ->
  Abs (save env) (fileName (save env)) = inl fullPath ->
  create_err (save env) = None -> write_err (save env) = None ->
  let finish :=
    [Loop; Main OnRecordingDone; Main OnRecordingDone; Main OnRecordingDone;
     Main OnRecordingDone; Main OnRecordingDone] in
  let stored :=
    List.map
      (fun sample =>
         int16 (to_int unrepresentable (mul sample (of_Z 32767)))) in
  (loopPC st = LCheck ->
   let st' := run unrepresentable env st finish in
   mainPC st' = MReturned (returned fullPath) /\
   loopPC st' = LFinished /\
   console st' = (console st ++ ["stopping recording"; "Recording finished"])%list /\
   fs st' !! fullPath = Some (mkWav 44100 16 1 1 (stored (allSamples st)))) /\
  (loopPC st = LRead -> reads env (readCount st) = inr block ->
   let st' := run unrepresentable env st (Loop :: finish) in
   mainPC st' = MReturned (returned fullPath) /\
   fs st' !! fullPath =
     Some (mkWav 44100 16 1 1 (stored (allSamples st ++ block)%list))).
Proof.
  intros Hm Hd Hstop Habs Hcreate Hwrite finish stored.
  subst finish stored.
  assert (forall s : State,
             mainPC s = MWait -> loopPC s = LCheck -> dictating s = false ->
             let s' :=
               run unrepresentable env s
                 [Loop; Main OnRecordingDone; Main OnRecordingDone;
                  Main OnRecordingDone; Main OnRecordingDone;
                  Main OnRecordingDone] in
             mainPC s' = MReturned (returned fullPath) /\
             loopPC s' = LFinished /\
             console s' =
               (console s ++ ["stopping recording"; "Recording finished"])%list /\
             fs s' !! fullPath =
               Some (recording unrepresentable (allSamples s))) as Hfin.
  { intros s Hms Hls Hds s'.
    set (sL := loop_goto LFinished
                 (close_recordingDone (print "stopping recording" s))).
    set (sS := main_goto MSave
                 (call SStop
                    (main_goto MStop
                       (set_dictating false
                          (main_goto MClear (print "Recording finished" sL)))))).
    set (sW := main_goto (MWrite fullPath (allSamples sS))
                 (set_fs (<[fullPath := encode []]> (fs sS)) sS)).
    assert (s' =
            main_goto (MReturned (returned fullPath))
              (call SClose
                 (set_fs (<[fullPath :=
                              encode (intBuffer unrepresentable (allSamples sS))]>
                            (fs sW)) sW))) as ->.
    { subst s'. cbn [run fold_left step].
      assert (loop_step env s = sL) as ->
        by (unfold loop_step; now rewrite Hls, Hds).
      assert (main_step unrepresentable env OnRecordingDone sL =
              main_goto MClear (print "Recording finished" sL)) as ->
        by (unfold main_step; simpl; now rewrite Hms).
      rewrite (main_clear _ _ _ (main_goto MClear _)) by reflexivity.
      rewrite (main_stop_ok _ _ _ (main_goto MStop _))
        by (reflexivity || assumption).
      rewrite (main_save_ok _ _ _ (main_goto MSave _) fullPath)
        by (reflexivity || assumption).
      fold sS. fold sW.
      rewrite (main_write_ok _ _ _ sW fullPath (allSamples sS))
        by (reflexivity || assumption).
      reflexivity. }
    cbn [mainPC loopPC console fs main_goto call set_fs].
    split; [ reflexivity | ]. split; [ reflexivity | ]. split.
    - simpl. now rewrite <- app_assoc.
    - rewrite recording_encoded. apply lookup_insert_eq. }
  split.
  - intros Hl. now apply Hfin.
  - intros Hl Hr.
    assert (forall (s : State) (rest : list Action),
               run unrepresentable env s (Loop :: rest) =
               run unrepresentable env (loop_step env s) rest) as Hcons
      by reflexivity.
    cbv zeta. rewrite Hcons.
    assert (loop_step env st =
            loop_goto LCheck (append_block block (call SRead st))) as ->.
    { unfold loop_step. now rewrite Hl, Hr. }
    destruct (Hfin (loop_goto LCheck (append_block block (call SRead st)))
                Hm eq_refl Hd) as (H1 & _ & _ & H4).
    split; assumption.
Qed.

Lemma normal_stop_is_orderly_witness :
  let schedule :=
    [Main OnCtxDone; Main OnCtxDone; Loop; Loop; Loop; SinglePress; Loop;
     Main OnRecordingDone; Main OnRecordingDone; DoublePress;
     Main OnRecordingDone; Main OnRecordingDone; Main OnRecordingDone] in
  let st := run Inputs.unrepresentable Inputs.device_ok (start ∅) schedule in
  forallb (fun a => negb (is_cancel a)) schedule = true /\
  mainPC st = MReturned (Inputs.saved_path, None) /\
  blocks_read Inputs.device_ok (readCount st) =
    [Inputs.quarter; Inputs.minus_one] /\
  stream st = [SOpen; SStart; SRead; SStop; SClose] /\
  loopPC st = LFinished /\
  allSamples st = [Inputs.quarter; Inputs.minus_one] /\
  fs st = <[Inputs.saved_path := mkWav 44100 16 1 1 [8191; -32767]]> ∅.
Proof.
  do 3 (split; [ reflexivity | ]).
  exact (normal_stop_is_orderly Inputs.unrepresentable Inputs.device_ok ∅
           [Main OnCtxDone; Main OnCtxDone; Loop; Loop; Loop; SinglePress; Loop;
            Main OnRecordingDone; Main OnRecordingDone; DoublePress;
            Main OnRecordingDone; Main OnRecordingDone; Main OnRecordingDone]
           Inputs.saved_path eq_refl eq_refl).
Defined.

Lemma attempt_touches_one_path_witness :
  let schedule := [Main OnCtxDone; Main OnCtxDone; Loop; Loop; Loop; Cancel] in
  let st := run Inputs.unrepresentable Inputs.device_ok (start ∅) schedule in
  before_create st = true /\ fs st = ∅.
Proof.
  split; [ reflexivity | ].
  exact (proj1 (attempt_touches_one_path Inputs.unrepresentable
                  Inputs.device_ok ∅
                  [Main OnCtxDone; Main OnCtxDone; Loop; Loop; Loop; Cancel])
           eq_refl).
Defined.

Lemma attempt_only_clears_flag_witness :
  let st := set_dictating false (start ∅) in
  let schedule := [Main OnCtxDone; Main OnCtxDone; Loop; Cancel; Loop] in
  let late :=
    [Main OnCtxDone; Main OnCtxDone; Loop; Loop; Loop; SinglePress; Loop;
     Main OnRecordingDone; Main OnRecordingDone; DoublePress;
     Main OnRecordingDone; Main OnRecordingDone; Main OnRecordingDone] in
  let returned_set :=
    run Inputs.unrepresentable Inputs.device_ok (start ∅) late in
  forallb (fun a => negb (is_double a)) schedule = true /\
  dictating st = false /\
  has_returned returned_set = true /\ dictating returned_set = true /\
  dictating (run Inputs.unrepresentable Inputs.device_ok st schedule) = false.
Proof.
  do 4 (split; [ reflexivity | ]).
  exact (proj1 (proj1 (proj2 (proj2
           (attempt_only_clears_flag Inputs.unrepresentable
              Inputs.device_ok ∅ (set_dictating false (start ∅)) OnCtxDone
              [Main OnCtxDone; Main OnCtxDone; Loop; Cancel; Loop])))
           eq_refl) eq_refl).
Defined.

Lemma stop_gesture_finalizes_witness :
  let env := Inputs.device_ok in
  let st :=
    run Inputs.unrepresentable env (start ∅)
      [Main OnCtxDone; Main OnCtxDone; Loop; Loop; Loop; SinglePress] in
  let st' :=
    run Inputs.unrepresentable env st
      [Loop; Main OnRecordingDone; Main OnRecordingDone; Main OnRecordingDone;
       Main OnRecordingDone; Main OnRecordingDone] in
  mainPC st = MWait /\ dictating st = false /\ stop_err env = None /\
  Abs (save env) (fileName (save env)) = inl Inputs.saved_path /\
  create_err (save env) = None /\ write_err (save env) = None /\
  loopPC st = LCheck /\
  allSamples st = [Inputs.quarter; Inputs.minus_one] /\
  mainPC st' = MReturned (returned Inputs.saved_path) /\
  loopPC st' = LFinished /\
  console st' = (console st ++ ["stopping recording"; "Recording finished"])%list /\
  fs st' !! Inputs.saved_path = Some (mkWav 44100 16 1 1 [8191; -32767]).
Proof.
  do 8 (split; [ reflexivity | ]).
  exact (proj1 (stop_gesture_finalizes Inputs.unrepresentable Inputs.device_ok
                  (run Inputs.unrepresentable Inputs.device_ok (start ∅)
                     [Main OnCtxDone; Main OnCtxDone; Loop; Loop; Loop;
                      SinglePress])
                  Inputs.saved_path []
                  eq_refl eq_refl eq_refl eq_refl eq_refl eq_refl) eq_refl).
Defined.

End RecordingFacts.

(** ** Transcription client and session: failures, files, typed text *)

Module TranscriptionFacts.
Import Json Session SessionFacts.

Lemma transcribeAudio_cases (env : Env) (path : string) (w : World) :
  (exists err : Error, transcribeAudio env path w = (failed err, w)) \/
  (exists text : string,
      fst (transcribeAudio env path w) = (text, None) /\
      os_Open env path w = None /\
      snd (transcribeAudio env path w) =
      match remove_err env with
      | Some err =>
          print ("Warning: failed to remove temporary audio file: " ++ err) w
      | None => mkWorld (delete path (fs w)) (console w) (typed w)
      end).
Proof.
  unfold transcribeAudio.
  destruct (os_Open env path w); [ eauto | ].
  destruct (createFormFile_err env); [ eauto | ].
  destruct (copy_err env); [ eauto | ].
  destruct (writeField_err env); [ eauto | ].
  destruct (close_err env); [ eauto | ].
  destruct (newRequest_err env); [ eauto | ].
  destruct (do_result env) as [resp | err]; [ | eauto ].
  destruct (Decode (Body resp)) as [text [err | ]]; [ eauto | ].
  right. exists text. unfold os_Remove.
  destruct (remove_err env); simpl; auto.
Qed.

(** Failures keep the file.  Whenever [transcribeAudio] returns an error,
    at whatever step, it returns the empty string with it and has changed
    nothing: the audio file is still on disk, and nothing was printed. *)
Theorem transcription_failure_keeps_file
    (env : Env) (path : string) (w : World) (err : Error) :
  snd (fst (transcribeAudio env path w)) = Some err ->
  transcribeAudio env path w = (("", Some err), w).
Proof.
  intros H.
  destruct (transcribeAudio_cases env path w) as [(e & He) | (text & Ht & _)].
  - rewrite He in H |- *. simpl in H. now inversion H.
  - rewrite Ht in H. discriminate.
Qed.

(** Other files.  Whatever the outcome, [transcribeAudio] never touches a
    file other than the one it was given, types nothing, and prints at most
    the removal warning. *)
Theorem transcription_touches_one_file
    (env : Env) (path : string) (w : World) :
  let w' := snd (transcribeAudio env path w) in
  (forall p : string, p <> path -> fs w' !! p = fs w !! p) /\
  typed w' = typed w /\
  (console w' = console w \/
   exists err : Error,
     remove_err env = Some err /\ fs w' = fs w /\
     console w' =
       (console w ++
        [("Warning: failed to remove temporary audio file: " ++ err)%string])%list).
Proof.
  destruct (transcribeAudio_cases env path w)
    as [(e & He) | (text & _ & _ & Hw)]; cbv zeta.
  - rewrite He. simpl. auto.
  - rewrite Hw. destruct (remove_err env) as [err | ]; simpl.
    + repeat split; eauto.
    + repeat split; auto. intros p Hp. now apply lookup_delete_ne.
Qed.

(** One file, one upload.  After a call that returned a transcript and
    removed the file, a second call for the same path fails at [os.Open],
    whatever the system would answer otherwise, and changes nothing. *)
Theorem second_transcription_fails
    (env env' : Env) (path : string) (w : World) (text : string) :
  fst (transcribeAudio env path w) = (text, None) ->
  remove_err env = None ->
  let w1 := snd (transcribeAudio env path w) in
  transcribeAudio env' path w1 =
  (failed (wrap "opening audio file"
             ("open " ++ path ++ ": no such file or directory")), w1).
Proof.
  intros Hok Hrm.
  destruct (transcribeAudio_cases env path w)
    as [(e & He) | (text' & _ & _ & Hw)].
  - rewrite He in Hok. discriminate.
  - cbv zeta. rewrite Hw, Hrm. unfold transcribeAudio, os_Open. simpl.
    now rewrite lookup_delete_eq.
Qed.

(** What a session types.  [startTranscription] hands text to the injector
    only when [recordAudio] and [transcribeAudio] both returned no error,
    and then exactly the transcript, once, after printing it.  When
    [recordAudio] failed nothing is uploaded; in both failure cases one
    error line is printed and files and typed text stay as they were. *)
Theorem session_types_on_success_only
    (env : Env) (recorded : GoResult) (w : World) :
  let w' := startTranscription env recorded w in
  (forall err : Error,
      snd recorded = Some err ->
      w' = print ("Error saving audio file: " ++ err) w) /\
  (forall err : Error,
      snd recorded = None ->
      snd (fst (transcribeAudio env (fst recorded) w)) = Some err ->
      w' = print ("Error transcribing: " ++ err) w) /\
  (forall text : string,
      snd recorded = None ->
      fst (transcribeAudio env (fst recorded) w) = (text, None) ->
      typed w' = (typed w ++ [text])%list /\
      last (console w') = Some ("You said: " ++ text)%string) /\
  (length (typed w') <= S (length (typed w)))%nat.
Proof.
  destruct recorded as [path [rec_err | ]]; cbv zeta;
    unfold startTranscription; simpl.
  - split; [ intros err [= ->]; reflexivity | ].
    split; [ intros err H; discriminate | ].
    split; [ intros text H; discriminate | lia ].
  - split; [ intros err H; discriminate | ].
    destruct (transcribeAudio_cases env path w)
      as [(e & He) | (text & Ht & _ & Hw)].
    + rewrite He. simpl.
      split; [ intros err _ [= ->]; reflexivity | ].
      split; [ intros text _ H; discriminate | lia ].
    + destruct (transcribeAudio env path w) as [[text' o] w1].
      simpl in Ht, Hw. inversion Ht; subst text' o.
      assert (typed w1 = typed w) as Hty
        by (rewrite Hw; destruct (remove_err env); reflexivity).
      split; [ intros err _ H; discriminate | ].
      split.
      * intros text' _ [= <-]. simpl. rewrite Hty. split; [ reflexivity | ].
        apply last_snoc.
      * simpl. rewrite length_app, Hty. simpl. lia.
Qed.

Lemma transcription_failure_keeps_file_witness :
  let env :=
    mkEnv None None None None None None (inr "connection refused") None in
  let w := Inputs.one_recording in
  snd (fst (transcribeAudio env Inputs.saved_path w)) =
    Some "sending request: connection refused" /\
  transcribeAudio env Inputs.saved_path w =
    (("", Some "sending request: connection refused"), w).
Proof.
  split; [ reflexivity | ].
  exact (transcription_failure_keeps_file
           (mkEnv None None None None None None (inr "connection refused") None)
           Inputs.saved_path Inputs.one_recording
           "sending request: connection refused" eq_refl).
Defined.

Lemma transcription_touches_one_file_witness :
  let env := Inputs.server Inputs.transcript None in
  let w :=
    mkWorld (<["/tmp/other.wav" := Audio.encode [1]]> (fs Inputs.one_recording))
      [] [] in
  let w' := snd (transcribeAudio env Inputs.saved_path w) in
  "/tmp/other.wav" <> Inputs.saved_path /\
  fs w' !! "/tmp/other.wav" = fs w !! "/tmp/other.wav".
Proof.
  assert ("/tmp/other.wav" <> Inputs.saved_path) as Hne
    by (vm_compute; discriminate).
  split; [ exact Hne | ].
  exact (proj1 (transcription_touches_one_file
                  (Inputs.server Inputs.transcript None) Inputs.saved_path
                  (mkWorld (<["/tmp/other.wav" := Audio.encode [1]]>
                              (fs Inputs.one_recording)) [] []))
           "/tmp/other.wav" Hne).
Defined.

Lemma second_transcription_fails_witness :
  let env := Inputs.server Inputs.transcript None in
  let w := Inputs.one_recording in
  let w1 := snd (transcribeAudio env Inputs.saved_path w) in
  fst (transcribeAudio env Inputs.saved_path w) = ("hello", None) /\
  remove_err env = None /\
  transcribeAudio env Inputs.saved_path w1 =
  (failed (wrap "opening audio file"
             ("open " ++ Inputs.saved_path ++ ": no such file or directory")),
   w1).
Proof.
  do 2 (split; [ reflexivity | ]).
  exact (second_transcription_fails (Inputs.server Inputs.transcript None)
           (Inputs.server Inputs.transcript None) Inputs.saved_path
           Inputs.one_recording "hello" eq_refl eq_refl).
Defined.

Lemma session_types_on_success_only_witness :
  let env := Inputs.server Inputs.transcript None in
  let w := Inputs.one_recording in
  let recorded := returned Inputs.saved_path in
  let w' := startTranscription env recorded w in
  snd recorded = None /\
  fst (transcribeAudio env (fst recorded) w) = ("hello", None) /\
  typed w' = (typed w ++ ["hello"])%list /\
  last (console w') = Some "You said: hello".
Proof.
  do 2 (split; [ reflexivity | ]).
  exact (proj1 (proj2 (proj2
           (session_types_on_success_only
              (Inputs.server Inputs.transcript None)
              (returned Inputs.saved_path) Inputs.one_recording)))
           "hello" eq_refl eq_refl).
Defined.

End TranscriptionFacts.

(** ** The lifecycle *)

Module LifecycleFacts.
Import GoTime Classifier ClassifierFacts Listener ListenerFacts Lifecycle.

Lemma key_step_loop (l : Classifier.State) (ev : Event) (now : Time) :
  let l' := listen_step l (KeyEvent ev now) in
  (listening l' = listening l /\ cancelCalled l' = cancelCalled l) \/
  (listening l' = false /\ cancelCalled l' = true).
Proof.
  unfold listen_step. destruct (listening l) eqn:Hl; simpl; [ | auto ].
  destruct (Kind ev).
  - destruct (Rawcode ev =? ctrlRawcode); [ auto | ].
    destruct ((Rawcode ev =? cRawcode) && ctrlPressed l); simpl.
    + right. split; [ reflexivity | apply orb_true_r ].
    + destruct (handleKeyEvent_keeps_loop ev now (set_ctrlPressed false l))
        as (_ & -> & ->). auto.
  - destruct (Rawcode ev =? ctrlRawcode); [ auto | ].
    destruct ((Rawcode ev =? cRawcode) && ctrlPressed l); simpl.
    + right. split; [ reflexivity | apply orb_true_r ].
    + destruct (handleKeyEvent_keeps_loop ev now (set_ctrlPressed false l))
        as (_ & -> & ->). auto.
  - destruct (Rawcode ev =? ctrlRawcode); auto.
  - auto.
Qed.

(** A listener that has returned takes no further input. *)
Lemma listen_step_ended (l : Classifier.State) (i : Input) :
  listening l = false -> listen_step l i = l.
Proof. intros H. unfold listen_step. now rewrite H. Qed.

(** The steps while [run] has not returned. *)
Lemma step_running (st : State) (a : Action) :
  result st = None ->
  step st a =
  match a with
  | Signal => mkLife (listener st) true (announced st) (terminated st) None
  | Watcher =>
      if ctxDone st && negb (announced st) then
        mkLife (println "Received interrupt signal." (listener st))
          true true (terminated st) None
      else st
  | Key ev now =>
      let l := listen_step (listener st) (KeyEvent ev now) in
      mkLife l (ctxDone st || cancelCalled l) (announced st) (terminated st)
        None
  | Done =>
      if ctxDone st then
        mkLife (listen_step (listener st) CtxDone) true (announced st)
          (terminated st) None
      else st
  | Finish =>
      if listening (listener st) then st
      else
        mkLife (println "Shutting down now..." (listener st)) true
          (announced st) true (Some None)
  end.
Proof. intros Hr. unfold step. rewrite Hr. reflexivity. Qed.

(** The steps after [run] has returned nil: only the waiting goroutine can
    still print. *)
Lemma step_returned (st : State) (a : Action) :
  result st = Some None -> listening (listener st) = false ->
  ctxDone st = true ->
  step st a =
  match a with
  | Watcher =>
      if negb (announced st) then
        mkLife (println "Received interrupt signal." (listener st))
          true true (terminated st) (Some None)
      else st
  | _ => st
  end.
Proof.
  intros Hr Hl Hd. unfold step. rewrite Hr.
  destruct a as [ | | ev now | | ]; rewrite ?Hl, ?Hd;
    rewrite ?listen_step_ended by exact Hl; cbn [andb orb];
    try reflexivity; destruct st; simpl in *; subst; reflexivity.
Qed.

Lemma step_sound (st : State) (a : Action) : sound st -> sound (step st a).
Proof.
  intros Hs. pose proof Hs as (H1 & H2 & H3 & H4).
  destruct (result st) as [[e | ] | ] eqn:Hr.
  - destruct (H4 _ eq_refl) as (Hn & _). discriminate.
  - destruct (H4 _ eq_refl) as (_ & Hl & Ht & before & Hshut).
    rewrite (step_returned st a Hr Hl (H1 Hl)).
    destruct a; try exact Hs.
    destruct (announced st) eqn:Ha; [ exact Hs | ]. cbn [negb].
    unfold sound, shut_down. cbn [listener ctxDone announced terminated result].
    split; [ reflexivity | ]. split; [ reflexivity | ].
    split; [ intros Hc; split; [ exact Hl | reflexivity ] | ].
    intros r [= <-]. split; [ reflexivity | ].
    split; [ exact Hl | ]. split; [ exact Ht | ].
    exists before. right. split; [ | reflexivity ].
    destruct Hshut as [Hlast | [_ Hann]]; [ | discriminate ].
    cbn [println console]. rewrite Hlast. now rewrite <- app_assoc.
  - rewrite (step_running st a Hr). unfold sound.
    destruct a as [ | | ev now | | ].
    + cbn [listener ctxDone announced terminated result].
      repeat split; intros; try discriminate; auto; now apply H3.
    + destruct (ctxDone st && negb (announced st)) eqn:E;
        cbn [listener ctxDone announced terminated result println listening
             cancelCalled];
        rewrite ?Hr;
        repeat split; intros; try discriminate; auto; now apply H3.
    + cbv zeta. cbn [listener ctxDone announced terminated result].
      destruct (key_step_loop (listener st) ev now) as [[Hl Hc] | [Hl Hc]];
        cbv zeta in Hl, Hc; rewrite Hl, Hc.
      * repeat split; intros; try discriminate;
          try (rewrite H1 by assumption; reflexivity);
          try (rewrite H2 by assumption; reflexivity);
          try (now apply H3).
        rewrite (proj2 (H3 ltac:(assumption))). reflexivity.
      * repeat split; intros; try discriminate; apply orb_true_r.
    + destruct (ctxDone st) eqn:Hd;
        cbn [listener ctxDone announced terminated result]; rewrite ?Hr, ?Hd;
        [ | repeat split; intros; try discriminate; auto; now apply H3 ].
      unfold listen_step. destruct (listening (listener st)) eqn:Hl; simpl;
        rewrite ?Hl, ?orb_false_r;
        repeat split; intros; try discriminate; auto; now apply H3.
    + destruct (listening (listener st)) eqn:Hl;
        cbn [listener ctxDone announced terminated result println listening
             cancelCalled];
        rewrite ?Hr, ?Hl.
      * repeat split; intros; try discriminate; auto; now apply H3.
      * split; [ reflexivity | ]. split; [ reflexivity | ].
        split; [ intros Hc; split; reflexivity | ].
        intros r [= <-]. split; [ reflexivity | ].
        split; [ reflexivity | ]. split; [ reflexivity | ].
        exists (console (listener st)). left. reflexivity.
Qed.

Lemma run_sound (st : State) (schedule : list Action) :
  sound st -> sound (run st schedule).
Proof.
  unfold run. revert st.
  induction schedule as [ | a rest IH]; intros st H; simpl; [ exact H | ].
  apply IH. now apply step_sound.
Qed.

Lemma boot_sound : sound (boot None).
Proof. unfold sound. simpl. repeat split; discriminate. Qed.

(** After a failed [portaudio.Initialize] nothing happens any more. *)
Lemma run_not_started (st : State) (schedule : list Action) (err : Error) :
  result st = Some (Some err) -> run st schedule = st.
Proof.
  unfold run. induction schedule as [ | a rest IH]; intros H; simpl;
    [ reflexivity | ].
  assert (step st a = st) as -> by (unfold step; now rewrite H).
  now apply IH.
Qed.

(** The lines of [run] and the listener are kept apart from the line of the
    waiting goroutine. *)
Lemma own_lines_app (lines : list string) (s : string) :
  own_lines (lines ++ [s]) =
  (own_lines lines ++
   if String.eqb s "Received interrupt signal." then [] else [s])%list.
Proof.
  unfold own_lines. rewrite List.filter_app. simpl.
  now destruct (String.eqb s "Received interrupt signal.").
Qed.

Lemma handleKeyEvent_console (ev : Event) (now : Time) (l : Classifier.State) :
  set_console (own_lines (console (handleKeyEvent ev now l)))
    (handleKeyEvent ev now l) =
  handleKeyEvent ev now (set_console (own_lines (console l)) l).
Proof.
  unfold handleKeyEvent.
  destruct (negb (Rawcode ev =? globeKeyCode)); [ reflexivity | ].
  cbn [lastGlobePressTime set_console].
  destruct (Sub now (lastGlobePressTime l) <? doublePressTime).
  - unfold handleDoublePress. cbn [note dictating set_console].
    destruct (dictating l); cbn [negb]; unfold set_console; simpl;
      rewrite ?own_lines_app; reflexivity.
  - unfold handleSinglePress. cbn [note dictating set_console].
    destruct (dictating l); unfold set_console; simpl;
      rewrite ?own_lines_app; reflexivity.
Qed.

Lemma listen_step_console (l : Classifier.State) (i : Input) :
  set_console (own_lines (console (listen_step l i))) (listen_step l i) =
  listen_step (set_console (own_lines (console l)) l) i.
Proof.
  unfold listen_step. cbn [listening set_console].
  destruct (listening l); cbn [negb]; [ | reflexivity ].
  destruct i as [ | ev now].
  - unfold set_console. simpl. rewrite own_lines_app. reflexivity.
  - destruct (Kind ev); try reflexivity;
      destruct (Rawcode ev =? ctrlRawcode); try reflexivity;
      cbn [ctrlPressed set_console];
      destruct ((Rawcode ev =? cRawcode) && ctrlPressed l);
      try (unfold set_console; simpl; rewrite own_lines_app; reflexivity);
      rewrite handleKeyEvent_console; reflexivity.
Qed.

Lemma own_lines_watcher (lines : list string) :
  own_lines (lines ++ ["Received interrupt signal."]) = own_lines lines.
Proof. rewrite own_lines_app. apply app_nil_r. Qed.

Lemma own_lines_own (lines : list string) (s : string) :
  String.eqb s "Received interrupt signal." = false ->
  own_lines (lines ++ [s]) = (own_lines lines ++ [s])%list.
Proof. intros H. now rewrite own_lines_app, H. Qed.

(** The waiting goroutine changes nothing but its own line: with that line
    taken out, a run is the run of the other steps. *)
Lemma step_without_watcher (st : State) (a : Action) :
  without_watcher (step st a) =
  if is_watcher a then without_watcher st else step (without_watcher st) a.
Proof.
  assert (forall l : Classifier.State,
             cancelCalled (set_console (own_lines (console l)) l) =
             cancelCalled l) as Hcc by reflexivity.
  destruct st as [l d an t r]. unfold step, without_watcher.
  cbn [result listener ctxDone announced terminated].
  destruct r as [[e | ] | ]; [ destruct a; reflexivity | | ].
  - destruct a as [ | | ev now | | ]; cbn [is_watcher negb].
    + reflexivity.
    + destruct (d && negb an) eqn:E; [ | reflexivity ].
      apply andb_prop in E as [-> _].
      cbn [result listener ctxDone announced terminated println console].
      now rewrite own_lines_watcher.
    + cbv zeta. cbn [result listener ctxDone announced terminated].
      rewrite <- listen_step_console. now rewrite Hcc.
    + destruct d; [ | reflexivity ].
      cbn [result listener ctxDone announced terminated].
      now rewrite listen_step_console.
    + cbn [listening set_console]. destruct (listening l); reflexivity.
  - destruct a as [ | | ev now | | ]; cbn [is_watcher negb].
    + reflexivity.
    + destruct (d && negb an) eqn:E; [ | reflexivity ].
      apply andb_prop in E as [-> _].
      cbn [result listener ctxDone announced terminated println console].
      now rewrite own_lines_watcher.
    + cbv zeta. cbn [result listener ctxDone announced terminated].
      rewrite <- listen_step_console. now rewrite Hcc.
    + destruct d; [ | reflexivity ].
      cbn [result listener ctxDone announced terminated].
      now rewrite listen_step_console.
    + cbn [listening set_console]. destruct (listening l); [ reflexivity | ].
      cbn [result listener ctxDone announced terminated println console].
      rewrite own_lines_own by reflexivity. reflexivity.
Qed.
Lemma run_without_watcher (st : State) (schedule : list Action) :
  without_watcher (run st schedule) =
  run (without_watcher st) (others schedule).
Proof.
  unfold run, others. revert st.
  induction schedule as [ | a rest IH]; intros st; [ reflexivity | ].
  cbn [fold_left List.filter]. rewrite IH, step_without_watcher.
  destruct (is_watcher a); reflexivity.
Qed.

(** The two orderly ways out, without the waiting goroutine. *)
Lemma quit_by_chord (st : State) (k1 k2 : EventKind) (t1 t2 : Time) :
  result st = None -> listening (listener st) = true ->
  is_down k1 = true -> is_down k2 = true ->
  run st [Key (mkEvent k1 ctrlRawcode) t1; Key (mkEvent k2 cRawcode) t2;
          Finish] =
  mkLife
    (println "Shutting down now..."
       (stop_listening true
          (println "User pressed Ctrl+C"
             (set_ctrlPressed true (listener st)))))
    true (announced st) true (Some None).
Proof.
  intros Hr Hl Hk1 Hk2. set (l := listener st) in *.
  assert (listen_step l (KeyEvent (mkEvent k1 ctrlRawcode) t1) =
          set_ctrlPressed true l) as Hctrl.
  { unfold listen_step. rewrite Hl. destruct k1; try discriminate; reflexivity. }
  assert (listen_step (set_ctrlPressed true l)
            (KeyEvent (mkEvent k2 cRawcode) t2) =
          stop_listening true
            (println "User pressed Ctrl+C" (set_ctrlPressed true l))) as Hc.
  { unfold listen_step. simpl. rewrite Hl.
    destruct k2; try discriminate; reflexivity. }
  unfold run. cbn [fold_left].
  rewrite (step_running st _ Hr). cbv zeta. fold l. rewrite Hctrl.
  match goal with
  | |- context [step ?s (Key ?ev ?t)] =>
      rewrite (step_running s (Key ev t) eq_refl)
  end.
  cbv zeta. cbn [listener ctxDone announced terminated]. rewrite Hc.
  rewrite step_running by reflexivity. reflexivity.
Qed.

Lemma quit_by_signal (st : State) :
  result st = None -> listening (listener st) = true ->
  run st [Signal; Done; Finish] =
  mkLife
    (println "Shutting down now..."
       (stop_listening false
          (println "Context cancelled, stopping keyboard listener"
             (listener st))))
    true (announced st) true (Some None).
Proof.
  intros Hr Hl.
  assert (listen_step (listener st) CtxDone =
          stop_listening false
            (println "Context cancelled, stopping keyboard listener"
               (listener st))) as Hdone.
  { unfold listen_step. now rewrite Hl. }
  unfold run. cbn [fold_left].
  rewrite (step_running st _ Hr).
  match goal with
  | |- context [step ?s Done] => rewrite (step_running s Done eq_refl)
  end.
  cbn [listener ctxDone announced terminated]. rewrite Hdone.
  rewrite step_running by reflexivity. reflexivity.
Qed.

(** The listener ends on cancellation only.  Under every interleaving of
    key events, signals and the waiting goroutine: the listener has
    returned only if the context is done, and it calls [cancel()] only as
    it returns; the waiting goroutine prints only after the context is
    done; and when [run] has returned, it has returned nil after the
    listener, with [portaudio.Terminate()] run, and among the lines of
    [run], the listener and the waiting goroutine its shutdown line is the
    last one, or is followed by the line of the waiting goroutine and
    nothing else. *)
Theorem listener_ends_on_cancellation_only (schedule : list Action) :
  let st := run (boot None) schedule in
  (listening (listener st) = false -> ctxDone st = true) /\
  (announced st = true -> ctxDone st = true) /\
  (cancelCalled (listener st) = true ->
   listening (listener st) = false /\ ctxDone st = true) /\
  (forall r : option Error,
      result st = Some r ->
      r = None /\ listening (listener st) = false /\ terminated st = true /\
      exists before : list string,
        console (listener st) = (before ++ ["Shutting down now..."])%list \/
        (console (listener st) =
           (before ++
            ["Shutting down now..."; "Received interrupt signal."])%list /\
         announced st = true)).
Proof. exact (run_sound (boot None) schedule boot_sound). Qed.

(** Both ways out.  From any state in which the listener runs, the quit
    chord followed by the rest of [run], and a signal followed by the
    listener's receipt of it and the rest of [run], make [run] return nil,
    wherever the steps of the waiting goroutine fall in between and after.
    The lines of [run] and of the listener then end with the line of the
    way taken and the shutdown line; where the line of the waiting
    goroutine falls among them is not fixed.  The chord calls [cancel()],
    the signal does not. *)
Theorem both_quits_end_run
    (st : State) (k1 k2 : EventKind) (t1 t2 : Time)
    (by_chord by_signal : list Action) :
  result st = None -> listening (listener st) = true ->
  is_down k1 = true -> is_down k2 = true ->
  others by_chord =
    [Key (mkEvent k1 ctrlRawcode) t1; Key (mkEvent k2 cRawcode) t2; Finish] ->
  others by_signal = [Signal; Done; Finish] ->
  let chord := run st by_chord in
  let signal := run st by_signal in
  (result chord = Some None /\ cancelCalled (listener chord) = true /\
   own_lines (console (listener chord)) =
     (own_lines (console (listener st)) ++
      ["User pressed Ctrl+C"; "Shutting down now..."])%list) /\
  (result signal = Some None /\
   cancelCalled (listener signal) = cancelCalled (listener st) /\
   own_lines (console (listener signal)) =
     (own_lines (console (listener st)) ++
      ["Context cancelled, stopping keyboard listener";
       "Shutting down now..."])%list).
Proof.
  intros Hr Hl Hk1 Hk2 Hchord Hsignal chord signal.
  pose proof (run_without_watcher st by_chord) as Hc.
  pose proof (run_without_watcher st by_signal) as Hs.
  fold chord in Hc. fold signal in Hs.
  rewrite Hchord in Hc. rewrite Hsignal in Hs.
  rewrite (quit_by_chord (without_watcher st) k1 k2 t1 t2 Hr Hl Hk1 Hk2) in Hc.
  rewrite (quit_by_signal (without_watcher st) Hr Hl) in Hs.
  split.
  - apply (f_equal (fun s => (result s, cancelCalled (listener s),
                              console (listener s)))) in Hc.
    cbn in Hc. injection Hc as Hres Hcc Hcon.
    split; [ exact Hres | ]. split; [ rewrite Hcc; apply orb_true_r | ].
    rewrite Hcon. now rewrite <- app_assoc.
  - apply (f_equal (fun s => (result s, cancelCalled (listener s),
                              console (listener s)))) in Hs.
    cbn in Hs. injection Hs as Hres Hcc Hcon.
    split; [ exact Hres | ]. split; [ rewrite Hcc; apply orb_false_r | ].
    rewrite Hcon. now rewrite <- app_assoc.
Qed.

(** Exit status.  Whenever the process has ended, its exit status is 0
    exactly when the API key is set and [portaudio.Initialize] succeeded.
    Without the key [run] is not called, whatever the audio subsystem
    would answer; with the key and a failed initialization the listener is
    never started: nothing is on standard output and the wrapped error is
    the one line on standard error. *)
Theorem exit_status
    (environ : gmap string string) (init_err : option Error)
    (schedule : list Action) (p : Startup.Process) :
  process environ init_err schedule = Some p ->
  let key := Startup.Getenv environ "OPENAI_API_KEY" in
  Startup.exitStatus p =
    Some (if negb (String.eqb key "") && negb (bool_decide (is_Some init_err))
          then 0 else 1) /\
  (String.eqb key "" = true ->
   forall (init_err' : option Error) (schedule' : list Action),
     process environ init_err' schedule' = Some p) /\
  (String.eqb key "" = false ->
   forall err : Error,
     init_err = Some err ->
     Startup.stdout p = [] /\
     Startup.stderr p = ["Error: initializing portaudio: " ++ err]).
Proof.
  intros Hp. cbv zeta. unfold process in *.
  destruct (String.eqb (Startup.Getenv environ "OPENAI_API_KEY") "") eqn:Hk.
  - injection Hp as <-. unfold Startup.main. rewrite Hk. simpl.
    split; [ reflexivity | ]. split; [ reflexivity | discriminate ].
  - destruct init_err as [err | ].
    + rewrite (run_not_started _ _ (wrap "initializing portaudio" err)) in Hp
        by reflexivity.
      simpl in Hp. injection Hp as <-.
      unfold Startup.main. rewrite Hk. simpl.
      split; [ reflexivity | ]. split; [ discriminate | ].
      intros _ err' [= <-]. split; reflexivity.
    + pose proof (run_sound (boot None) schedule boot_sound)
        as (_ & _ & _ & Hres).
      unfold outcome in Hp.
      destruct (result (run (boot None) schedule)) as [r | ] eqn:Hr;
        [ | discriminate ].
      destruct (Hres r eq_refl) as (-> & _).
      simpl in Hp. injection Hp as <-.
      unfold Startup.main. rewrite Hk. simpl.
      split; [ reflexivity | ]. split; [ discriminate | ].
      intros _ err H. discriminate.
Qed.

Lemma listener_ends_on_cancellation_only_witness :
  let schedule := [Signal; Done; Finish; Watcher] in
  let st := run (boot None) schedule in
  result st = Some None /\
  console (listener st) =
    ["Starting keyboard listener. Press Ctrl+C to exit.";
     "Context cancelled, stopping keyboard listener";
     "Shutting down now..."; "Received interrupt signal."] /\
  listening (listener st) = false /\ terminated st = true /\
  exists before : list string,
    console (listener st) = (before ++ ["Shutting down now..."])%list \/
    (console (listener st) =
       (before ++
        ["Shutting down now..."; "Received interrupt signal."])%list /\
     announced st = true).
Proof.
  do 2 (split; [ reflexivity | ]).
  exact (proj2 (proj2 (proj2 (proj2
           (listener_ends_on_cancellation_only
              [Signal; Done; Finish; Watcher]))) None eq_refl)).
Defined.

Lemma both_quits_end_run_witness :
  let st := boot None in
  let by_chord :=
    [Key (mkEvent KeyDown ctrlRawcode) (Inputs.at_ms 0);
     Key (mkEvent KeyDown cRawcode) (Inputs.at_ms 10); Watcher; Finish] in
  let by_signal := [Signal; Done; Finish; Watcher] in
  let chord := run st by_chord in
  result st = None /\ listening (listener st) = true /\
  is_down KeyDown = true /\
  others by_chord =
    [Key (mkEvent KeyDown ctrlRawcode) (Inputs.at_ms 0);
     Key (mkEvent KeyDown cRawcode) (Inputs.at_ms 10); Finish] /\
  others by_signal = [Signal; Done; Finish] /\
  console (listener chord) =
    ["Starting keyboard listener. Press Ctrl+C to exit.";
     "User pressed Ctrl+C"; "Received interrupt signal.";
     "Shutting down now..."] /\
  result chord = Some None /\ cancelCalled (listener chord) = true /\
  own_lines (console (listener chord)) =
    (own_lines (console (listener st)) ++
     ["User pressed Ctrl+C"; "Shutting down now..."])%list.
Proof.
  do 6 (split; [ reflexivity | ]).
  exact (proj1 (both_quits_end_run (boot None) KeyDown KeyDown
                  (Inputs.at_ms 0) (Inputs.at_ms 10)
                  [Key (mkEvent KeyDown ctrlRawcode) (Inputs.at_ms 0);
                   Key (mkEvent KeyDown cRawcode) (Inputs.at_ms 10);
                   Watcher; Finish]
                  [Signal; Done; Finish; Watcher]
                  eq_refl eq_refl eq_refl eq_refl eq_refl eq_refl)).
Defined.

Lemma exit_status_witness :
  let environ : gmap string string := {[ "OPENAI_API_KEY" := "sk-test" ]} in
  let p :=
    Startup.mkProcess
      ["Starting keyboard listener. Press Ctrl+C to exit.";
       "Context cancelled, stopping keyboard listener";
       "Shutting down now..."] [] (Some 0) "sk-test" in
  process environ None [Signal; Done; Finish] = Some p /\
  Startup.exitStatus p = Some 0.
Proof.
  split; [ reflexivity | ].
  exact (proj1 (exit_status {[ "OPENAI_API_KEY" := "sk-test" ]} None
                  [Signal; Done; Finish]
                  (Startup.mkProcess
                     ["Starting keyboard listener. Press Ctrl+C to exit.";
                      "Context cancelled, stopping keyboard listener";
                      "Shutting down now..."] [] (Some 0) "sk-test")
                  eq_refl)).
Defined.

End LifecycleFacts.
